(** * Robo AI - Logo Animator Studio: the generation services and the view
    state machine, embedded from [services/geminiService.ts], [types.ts] and the
    two revisions of [App.tsx]. *)

From Stdlib Require Import String Ascii NArith Arith Bool Lia List.
Import ListNotations.

Set Implicit Arguments.

(** ** JavaScript strings

    A JavaScript string is a sequence of UTF-16 code units.  The operations
    below are the ones the program calls on strings: concatenation (template
    literals), [includes], [trim] and [split] on a one-unit separator. *)
Module Js.

Definition jsstring := list N.

(** A source literal (the literals of this program are ASCII). *)
Definition lit (s : string) : jsstring :=
  map N_of_ascii (list_ascii_of_string s).

Definition eqb (a b : jsstring) : bool :=
  if list_eq_dec N.eq_dec a b then true else false.

(** ToBoolean on [string | null | undefined]: only a non-empty string is truthy. *)
Definition truthy (v : option jsstring) : bool :=
  match v with
  | Some (_ :: _) => true
  | _ => false
  end.

(** [`${v}`] for a value that may be [undefined]. *)
Definition template (v : option jsstring) : jsstring :=
  match v with
  | Some s => s
  | None => lit "undefined"
  end.

Fixpoint startsWith (s sub : jsstring) {struct sub} : bool :=
  match sub, s with
  | [], _ => true
  | _ :: _, [] => false
  | c :: sub', d :: s' => N.eqb c d && startsWith s' sub'
  end.

(** [s.includes(sub)] *)
Fixpoint includes (s sub : jsstring) : bool :=
  startsWith s sub ||
  match s with
  | [] => false
  | _ :: s' => includes s' sub
  end.

(** WhiteSpace and LineTerminator code units of ECMAScript, the ones [trim]
    strips. *)
Definition isWhiteSpace (c : N) : bool :=
  ((9 <=? c) && (c <=? 13) || (c =? 32) || (c =? 160) || (c =? 5760)
   || (8192 <=? c) && (c <=? 8202) || (c =? 8232) || (c =? 8233)
   || (c =? 8239) || (c =? 8287) || (c =? 12288) || (c =? 65279))%N.

Fixpoint trimStart (s : jsstring) : jsstring :=
  match s with
  | [] => []
  | c :: s' => if isWhiteSpace c then trimStart s' else s
  end.

Definition trimEnd (s : jsstring) : jsstring := rev (trimStart (rev s)).

(** [s.trim()] *)
Definition trim (s : jsstring) : jsstring := trimEnd (trimStart s).

(** [s.split(sep)] for a separator of one code unit; the result is never
    empty. *)
Fixpoint split (sep : N) (s : jsstring) : list jsstring :=
  match s with
  | [] => [[]]
  | c :: s' =>
      if N.eqb c sep then [] :: split sep s'
      else match split sep s' with
           | [] => [[c]]
           | piece :: rest => (c :: piece) :: rest
           end
  end.

(** A thrown value, as far as the program can tell values apart: an [Error]
    object with its message (a string, as the type of [Error] declares it); a
    value that is no [Error] and that [String(value)] turns into a text; or a
    value that is no [Error] and that [String(value)] cannot convert, the
    conversion throwing [raised] instead (a TypeError for an object without a
    usable [toString], or whatever its [toString] throws). *)
Inductive Thrown :=
| ErrorObj (message : jsstring)
| NonError (text : jsstring)
| Unconvertible (raised : Thrown).

(** A settled promise. *)
Inductive Settled (A : Type) :=
| Resolved (a : A)
| Rejected (e : Thrown).
Arguments Rejected {A} e.

End Js.
Import Js.

(** ** types.ts *)
Inductive AspectRatio :=
| AR_16_9   (* '16:9' *)
| AR_9_16.  (* '9:16' *)

(** ** The [@google/genai] client, [fetch] and the host page, as the program
    sees them *)
Module GenAI.

Module Images.
Record Image := { imageBytes : option jsstring }.
Record GeneratedImage := { image : option Image }.
Record GenerateImagesConfig := {
  numberOfImages : N;
  outputMimeType : jsstring;
  aspectRatio : jsstring }.
Record GenerateImagesParameters := {
  model : jsstring;
  prompt : jsstring;
  config : GenerateImagesConfig }.
Record GenerateImagesResponse := {
  generatedImages : option (list GeneratedImage) }.
End Images.

Module Videos.
Record Video := { uri : option jsstring }.
Record GeneratedVideo := { video : option Video }.
Record GenerateVideosResponse := {
  generatedVideos : option (list GeneratedVideo) }.
(** An operation snapshot; [done] is the truth value of the optional field. *)
Record Operation := {
  name : jsstring;
  done : bool;
  response : option GenerateVideosResponse }.
Record ImageInput := {
  imageBytes : option jsstring;
  mimeType : jsstring }.
Record GenerateVideosConfig := {
  numberOfVideos : N;
  resolution : jsstring;
  aspectRatio : AspectRatio }.
Record GenerateVideosParameters := {
  model : jsstring;
  prompt : jsstring;
  image : ImageInput;
  config : GenerateVideosConfig }.
End Videos.

Definition Blob := list N.

(** What [fetch] resolves to. *)
Record Response := {
  ok : bool;
  statusText : jsstring;
  blob : Settled Blob }.

(** [window.aistudio]; the program tests that [hasSelectedApiKey] is a
    function before it calls it. *)
Record AIStudio := {
  hasSelectedApiKey : option (Settled bool);
  openSelectKey : Settled unit }.

(** Everything outside the program that a run consults.  The remote service
    answers the [k]-th call of [getVideosOperation] (counted from 0) with
    [getVideosOperation k op], where [op] is the snapshot the program sent. *)
Record Host := {
  API_KEY : option jsstring;   (* process.env.API_KEY *)
  generateImages : Images.GenerateImagesParameters ->
                   Settled Images.GenerateImagesResponse;
  generateVideos : Videos.GenerateVideosParameters -> Settled Videos.Operation;
  getVideosOperation : nat -> Videos.Operation -> Settled Videos.Operation;
  fetch : jsstring -> Settled Response;
  createObjectURL : Blob -> jsstring;
  aistudio : option AIStudio }.

End GenAI.
Import GenAI.

(** ** Effects: the observable events of a run and the monad that threads
    them *)
Module Eff.

Inductive Event :=
| EvProgress (message : jsstring)            (* updateLoadingMessage(message) *)
| EvGenerateImages (req : Images.GenerateImagesParameters)
| EvGenerateVideos (req : Videos.GenerateVideosParameters)
| EvSleep (ms : N)                            (* setTimeout(resolve, ms) *)
| EvGetVideosOperation (operation : Videos.Operation)
| EvFetch (url : jsstring)
| EvOpenSelectKey
| EvHasSelectedApiKey
| EvConsoleError (label : jsstring) (e : Thrown).

(** The calls that leave the page for the generation service. *)
Definition isRemoteCall (e : Event) : bool :=
  match e with
  | EvGenerateImages _ | EvGenerateVideos _ | EvGetVideosOperation _
  | EvFetch _ => true
  | _ => false
  end.

Definition isPoll (e : Event) : bool :=
  match e with EvGetVideosOperation _ => true | _ => false end.

Definition isSubmit (e : Event) : bool :=
  match e with EvGenerateVideos _ => true | _ => false end.

Definition isProgress (e : Event) : bool :=
  match e with EvProgress _ => true | _ => false end.

Definition isFetch (e : Event) : bool :=
  match e with EvFetch _ => true | _ => false end.

Definition count (p : Event -> bool) (l : list Event) : nat :=
  length (filter p l).

(** How an [async] function ends: it returns, it throws, or (the polling loop
    has no bound) it is still running when the fuel of the model is spent. *)
Inductive Outcome (A : Type) :=
| Returned (a : A)
| Threw (e : Thrown)
| Unsettled.
Arguments Threw {A} e.
Arguments Unsettled {A}.

Section Monad.
Variable S : Type.   (* the view state a callback may update *)

Record World := { view : S; log : list Event }.

Definition M (A : Type) := World -> Outcome A * World.

Definition ret {A} (a : A) : M A := fun w => (Returned a, w).
Definition throw {A} (e : Thrown) : M A := fun w => (Threw e, w).
Definition unsettled {A} : M A := fun w => (Unsettled, w).

Definition bind {A B} (m : M A) (k : A -> M B) : M B :=
  fun w =>
    match m w with
    | (Returned a, w') => k a w'
    | (Threw e, w') => (Threw e, w')
    | (Unsettled, w') => (Unsettled, w')
    end.

(** [try { m } catch (e) { handler e }] *)
Definition tryCatch {A} (m : M A) (handler : Thrown -> M A) : M A :=
  fun w =>
    match m w with
    | (Threw e, w') => handler e w'
    | r => r
    end.

(** [try { m } finally { f }]: [f] runs however [m] ended, if it ended. *)
Definition tryFinally {A} (m : M A) (f : M unit) : M A :=
  fun w =>
    match m w with
    | (Unsettled, w') => (Unsettled, w')
    | (r, w') =>
        match f w' with
        | (Returned _, w'') => (r, w'')
        | (Threw e, w'') => (Threw e, w'')
        | (Unsettled, w'') => (Unsettled, w'')
        end
    end.

Definition emit (e : Event) : M unit :=
  fun w => (Returned tt, {| view := view w; log := log w ++ [e] |}).

Definition getView : M S := fun w => (Returned (view w), w).

Definition setView (f : S -> S) : M unit :=
  fun w => (Returned tt, {| view := f (view w); log := log w |}).

(** [await p] for a promise the host has settled. *)
Definition await {A} (p : Settled A) : M A :=
  match p with
  | Resolved a => ret a
  | Rejected e => throw e
  end.

Definition consoleError (label : jsstring) (e : Thrown) : M unit :=
  emit (EvConsoleError label e).

End Monad.

Arguments ret {S A} a.
Arguments throw {S A} e.
Arguments unsettled {S A}.
Arguments emit {S} e.
Arguments getView {S}.
Arguments await {S A} p.
Arguments consoleError {S} label e.

End Eff.
Import Eff.

Declare Scope eff_scope.
Delimit Scope eff_scope with eff.
Notation "x <- m ;; k" := (bind m (fun x => k))
  (at level 61, m at next level, right associativity) : eff_scope.
Notation "m ;; k" := (bind m (fun _ => k))
  (at level 61, right associativity) : eff_scope.
Open Scope eff_scope.

(** ** services/geminiService.ts *)
Module GeminiService.

Section Service.
Variable S : Type.
Variable host : Host.

(** The remote calls, each recorded in the log when it is made. *)
Definition callGenerateImages (req : Images.GenerateImagesParameters)
  : M S Images.GenerateImagesResponse :=
  emit (EvGenerateImages req) ;; await (generateImages host req).

Definition callGenerateVideos (req : Videos.GenerateVideosParameters)
  : M S Videos.Operation :=
  emit (EvGenerateVideos req) ;; await (generateVideos host req).

Definition callGetVideosOperation (operation : Videos.Operation)
  : M S Videos.Operation :=
  fun w =>
    (emit (EvGetVideosOperation operation) ;;
     await (getVideosOperation host (count isPoll (log w)) operation)) w.

Definition callFetch (url : jsstring) : M S Response :=
  emit (EvFetch url) ;; await (fetch host url).

Definition sleep (ms : N) : M S unit := emit (EvSleep ms).

(** [updateLoadingMessage(message)]: the call is logged and the callback, a
    state setter of the view, is run. *)
Definition progress (updateLoadingMessage : jsstring -> S -> S)
  (message : jsstring) : M S unit :=
  emit (EvProgress message) ;; setView (updateLoadingMessage message).

Definition getGeminiClient : M S unit :=
  if truthy (API_KEY host) then ret tt
  else throw (ErrorObj (lit "API_KEY environment variable not set")).

Definition imagePrompt (prompt : jsstring) : jsstring :=
  lit "A professional, modern logo for a company. Description: '" ++ prompt
  ++ lit "'. Clean vector style, minimalist, high contrast, on a solid transparent background.".

Definition imageRequest (prompt : jsstring) : Images.GenerateImagesParameters :=
  {| Images.model := lit "imagen-4.0-generate-001";
     Images.prompt := imagePrompt prompt;
     Images.config :=
       {| Images.numberOfImages := 1;
          Images.outputMimeType := lit "image/png";
          Images.aspectRatio := lit "1:1" |} |}.

Definition generateFailure : jsstring :=
  lit "Failed to generate logo. Please try a different prompt.".

Definition generateLogoImage_try (prompt : jsstring) : M S jsstring :=
  getGeminiClient ;;
  response <- callGenerateImages (imageRequest prompt) ;;
  match Images.generatedImages response with
  | Some (first :: _) =>
      match Images.image first with
      | Some img =>
          ret (lit "data:image/png;base64," ++ template (Images.imageBytes img))
      | None =>
          throw (ErrorObj
            (lit "Cannot read properties of undefined (reading 'imageBytes')"))
      end
  | _ => throw (ErrorObj (lit "No image was generated."))
  end.

Definition generateLogoImage (prompt : jsstring) : M S jsstring :=
  tryCatch (generateLogoImage_try prompt)
    (fun error =>
       consoleError (lit "Error generating logo image:") error ;;
       throw (ErrorObj generateFailure)).

Definition videoRequest (imageBase64 : jsstring) (aspectRatio : AspectRatio)
  : Videos.GenerateVideosParameters :=
  let base64Data := nth_error (split 44 imageBase64) 1 in
  {| Videos.model := lit "veo-3.1-fast-generate-preview";
     Videos.prompt := lit "A sleek, elegant, and short 3D animation of this logo. The animation should feel premium and modern.";
     Videos.image :=
       {| Videos.imageBytes := base64Data;
          Videos.mimeType := lit "image/png" |};
     Videos.config :=
       {| Videos.numberOfVideos := 1;
          Videos.resolution := lit "720p";
          Videos.aspectRatio := aspectRatio |} |}.

Definition loadingMessages : list jsstring :=
  [ lit "Warming up the animation studio...";
    lit "Rendering initial frames...";
    lit "Adding visual effects...";
    lit "This can take a few minutes...";
    lit "Finalizing the animation...";
    lit "Almost there, polishing the details..." ].

(** [while (!operation.done) { ... }]: the loop has no bound of its own; the
    model stops it, unsettled, after [fuel] iterations. *)
Fixpoint pollLoop (fuel : nat) (updateLoadingMessage : jsstring -> S -> S)
  (messageIndex : nat) (operation : Videos.Operation) : M S Videos.Operation :=
  if Videos.done operation then ret operation
  else
    match fuel with
    | O => unsettled
    | Datatypes.S fuel' =>
        progress updateLoadingMessage
          (nth (messageIndex mod length loadingMessages) loadingMessages []) ;;
        sleep 8000 ;;
        operation' <- callGetVideosOperation operation ;;
        pollLoop fuel' updateLoadingMessage (Datatypes.S messageIndex) operation'
    end.

(** [operation.response?.generatedVideos?.[0]?.video?.uri] *)
Definition downloadLink (operation : Videos.Operation) : option jsstring :=
  match Videos.response operation with
  | None => None
  | Some response =>
      match Videos.generatedVideos response with
      | None => None
      | Some videos =>
          match nth_error videos 0 with
          | None => None
          | Some generated =>
              match Videos.video generated with
              | None => None
              | Some v => Videos.uri v
              end
          end
      end
  end.

Definition notFoundPhrase : jsstring := lit "Requested entity was not found".
Definition notFoundMessage : jsstring := lit "Requested entity was not found.".
Definition animateFailure : jsstring :=
  lit "Failed to animate logo. Please try again.".
Definition completeMessage : jsstring :=
  lit "Animation complete! Fetching video...".
Definition animateLabel : jsstring := lit "Error animating logo:".
Definition noDownloadLink : jsstring :=
  lit "Video generation finished, but no download link was provided.".
Definition downloadFailed (statusText : jsstring) : jsstring :=
  lit "Failed to download video: " ++ statusText.

(** The end of the [try] block of [animateLogo], from the last progress
    message on: the result link is read off the final snapshot and the video
    is downloaded. *)
Definition fetchVideo (updateLoadingMessage : jsstring -> S -> S)
  (operation : Videos.Operation) : M S jsstring :=
  progress updateLoadingMessage completeMessage ;;
  let link := downloadLink operation in
  if negb (truthy link) then throw (ErrorObj noDownloadLink)
  else
    response <- callFetch (template link ++ lit "&key=" ++ template (API_KEY host)) ;;
    if negb (ok response) then
      throw (ErrorObj (downloadFailed (statusText response)))
    else
      videoBlob <- await (blob response) ;;
      ret (createObjectURL host videoBlob).

(** The [try] block of [animateLogo]. *)
Definition animateLogo_try (fuel : nat) (imageBase64 : jsstring)
  (aspectRatio : AspectRatio) (updateLoadingMessage : jsstring -> S -> S)
  : M S jsstring :=
  getGeminiClient ;;
  progress updateLoadingMessage (lit "Initiating animation sequence...") ;;
  operation <- callGenerateVideos (videoRequest imageBase64 aspectRatio) ;;
  operation <- pollLoop fuel updateLoadingMessage 0 operation ;;
  fetchVideo updateLoadingMessage operation.

(** [error instanceof Error ? error.message : String(error)]; the
    conversion is evaluated inside the [catch] block, so what it throws
    leaves the function. *)
Definition errorMessageOf (error : Thrown) : M S jsstring :=
  match error with
  | ErrorObj message => ret message
  | NonError text => ret text
  | Unconvertible raised => throw raised
  end.

(** The [catch] block of [animateLogo]. *)
Definition animateLogo_catch (error : Thrown) : M S jsstring :=
  consoleError animateLabel error ;;
  errorMessage <- errorMessageOf error ;;
  if includes errorMessage notFoundPhrase then
    throw (ErrorObj notFoundMessage)
  else throw (ErrorObj animateFailure).

Definition animateLogo (fuel : nat) (imageBase64 : jsstring)
  (aspectRatio : AspectRatio) (updateLoadingMessage : jsstring -> S -> S)
  : M S jsstring :=
  tryCatch (animateLogo_try fuel imageBase64 aspectRatio updateLoadingMessage)
    animateLogo_catch.

End Service.
End GeminiService.

(** ** App.tsx, the revision with the credential gate *)
Module App.

Record State := {
  apiKeySelected : option bool;        (* boolean | null *)
  prompt : jsstring;
  aspectRatio : AspectRatio;
  generatedImage : option jsstring;
  generatedVideoUrl : option jsstring;
  isGeneratingImage : bool;
  isGeneratingVideo : bool;
  videoLoadingMessage : jsstring;
  error : option jsstring }.

Definition defaultPrompt : jsstring :=
  lit "A minimalist fox icon for a tech startup".

(** The [useState] initial values. *)
Definition initialState : State :=
  {| apiKeySelected := None;
     prompt := defaultPrompt;
     aspectRatio := AR_16_9;
     generatedImage := None;
     generatedVideoUrl := None;
     isGeneratingImage := false;
     isGeneratingVideo := false;
     videoLoadingMessage := [];
     error := None |}.

Definition setApiKeySelected (v : option bool) (s : State) : State :=
  {| apiKeySelected := v; prompt := prompt s; aspectRatio := aspectRatio s;
     generatedImage := generatedImage s;
     generatedVideoUrl := generatedVideoUrl s;
     isGeneratingImage := isGeneratingImage s;
     isGeneratingVideo := isGeneratingVideo s;
     videoLoadingMessage := videoLoadingMessage s; error := error s |}.

Definition setPrompt (v : jsstring) (s : State) : State :=
  {| apiKeySelected := apiKeySelected s; prompt := v;
     aspectRatio := aspectRatio s; generatedImage := generatedImage s;
     generatedVideoUrl := generatedVideoUrl s;
     isGeneratingImage := isGeneratingImage s;
     isGeneratingVideo := isGeneratingVideo s;
     videoLoadingMessage := videoLoadingMessage s; error := error s |}.

Definition setAspectRatio (v : AspectRatio) (s : State) : State :=
  {| apiKeySelected := apiKeySelected s; prompt := prompt s;
     aspectRatio := v; generatedImage := generatedImage s;
     generatedVideoUrl := generatedVideoUrl s;
     isGeneratingImage := isGeneratingImage s;
     isGeneratingVideo := isGeneratingVideo s;
     videoLoadingMessage := videoLoadingMessage s; error := error s |}.

Definition setGeneratedImage (v : option jsstring) (s : State) : State :=
  {| apiKeySelected := apiKeySelected s; prompt := prompt s;
     aspectRatio := aspectRatio s; generatedImage := v;
     generatedVideoUrl := generatedVideoUrl s;
     isGeneratingImage := isGeneratingImage s;
     isGeneratingVideo := isGeneratingVideo s;
     videoLoadingMessage := videoLoadingMessage s; error := error s |}.

Definition setGeneratedVideoUrl (v : option jsstring) (s : State) : State :=
  {| apiKeySelected := apiKeySelected s; prompt := prompt s;
     aspectRatio := aspectRatio s; generatedImage := generatedImage s;
     generatedVideoUrl := v;
     isGeneratingImage := isGeneratingImage s;
     isGeneratingVideo := isGeneratingVideo s;
     videoLoadingMessage := videoLoadingMessage s; error := error s |}.

Definition setIsGeneratingImage (v : bool) (s : State) : State :=
  {| apiKeySelected := apiKeySelected s; prompt := prompt s;
     aspectRatio := aspectRatio s; generatedImage := generatedImage s;
     generatedVideoUrl := generatedVideoUrl s;
     isGeneratingImage := v;
     isGeneratingVideo := isGeneratingVideo s;
     videoLoadingMessage := videoLoadingMessage s; error := error s |}.

Definition setIsGeneratingVideo (v : bool) (s : State) : State :=
  {| apiKeySelected := apiKeySelected s; prompt := prompt s;
     aspectRatio := aspectRatio s; generatedImage := generatedImage s;
     generatedVideoUrl := generatedVideoUrl s;
     isGeneratingImage := isGeneratingImage s;
     isGeneratingVideo := v;
     videoLoadingMessage := videoLoadingMessage s; error := error s |}.

Definition setVideoLoadingMessage (v : jsstring) (s : State) : State :=
  {| apiKeySelected := apiKeySelected s; prompt := prompt s;
     aspectRatio := aspectRatio s; generatedImage := generatedImage s;
     generatedVideoUrl := generatedVideoUrl s;
     isGeneratingImage := isGeneratingImage s;
     isGeneratingVideo := isGeneratingVideo s;
     videoLoadingMessage := v; error := error s |}.

Definition setError (v : option jsstring) (s : State) : State :=
  {| apiKeySelected := apiKeySelected s; prompt := prompt s;
     aspectRatio := aspectRatio s; generatedImage := generatedImage s;
     generatedVideoUrl := generatedVideoUrl s;
     isGeneratingImage := isGeneratingImage s;
     isGeneratingVideo := isGeneratingVideo s;
     videoLoadingMessage := videoLoadingMessage s; error := v |}.

Definition selectKeyFailure : jsstring :=
  lit "Could not open API key selection. Please ensure you are in a supported environment.".
Definition promptRequired : jsstring :=
  lit "Please enter a description for your logo.".
Definition unknownError : jsstring := lit "An unknown error occurred.".
Definition invalidKeyPhrase : jsstring := lit "API key is invalid".

(** [e instanceof Error ? e.message : 'An unknown error occurred.'] *)
Definition shownMessage (e : Thrown) : jsstring :=
  match e with
  | ErrorObj message => message
  | NonError _ | Unconvertible _ => unknownError
  end.

(** [e instanceof Error && e.message.includes("API key is invalid")] *)
Definition saysKeyInvalid (e : Thrown) : bool :=
  match e with
  | ErrorObj message => includes message invalidKeyPhrase
  | NonError _ | Unconvertible _ => false
  end.

Section Handlers.
Variable host : Host.

(** The [useEffect] that runs once after mounting. *)
Definition checkApiKey : M State unit :=
  match aistudio host with
  | Some studio =>
      match hasSelectedApiKey studio with
      | Some answer =>
          emit EvHasSelectedApiKey ;;
          hasKey <- await answer ;;
          setView (setApiKeySelected (Some hasKey))
      | None => setView (setApiKeySelected (Some (truthy (API_KEY host))))
      end
  | None => setView (setApiKeySelected (Some (truthy (API_KEY host))))
  end.

Definition handleSelectKey : M State unit :=
  tryCatch
    (match aistudio host with
     | Some studio =>
         emit EvOpenSelectKey ;;
         await (openSelectKey studio) ;;
         setView (setApiKeySelected (Some true))
     | None =>
         throw (ErrorObj
           (lit "Cannot read properties of undefined (reading 'openSelectKey')"))
     end)
    (fun e =>
       consoleError (lit "Error opening select key dialog:") e ;;
       setView (setError (Some selectKeyFailure))).

Definition handleGenerateLogo : M State unit :=
  s <- getView ;;
  match trim (prompt s) with
  | [] => setView (setError (Some promptRequired))
  | _ :: _ =>
      setView (setError None) ;;
      setView (setIsGeneratingImage true) ;;
      tryFinally
        (tryCatch
           (imageData <- GeminiService.generateLogoImage host (prompt s) ;;
            setView (setGeneratedImage (Some imageData)))
           (fun e => setView (setError (Some (shownMessage e)))))
        (setView (setIsGeneratingImage false))
  end.

Definition handleAnimateLogo (fuel : nat) : M State unit :=
  s <- getView ;;
  match generatedImage s with
  | Some (c :: image') =>
      setView (setError None) ;;
      setView (setIsGeneratingVideo true) ;;
      setView (setVideoLoadingMessage (lit "Starting animation process...")) ;;
      tryFinally
        (tryCatch
           (videoUrl <- GeminiService.animateLogo host fuel (c :: image')
                          (aspectRatio s) setVideoLoadingMessage ;;
            setView (setGeneratedVideoUrl (Some videoUrl)))
           (fun e =>
              (if saysKeyInvalid e
               then setView (setApiKeySelected (Some false))
               else ret tt) ;;
              setView (setError (Some (shownMessage e)))))
        (setView (setIsGeneratingVideo false))
  | _ => ret tt
  end.

End Handlers.

Definition handleReset (s : State) : State :=
  setIsGeneratingVideo false
    (setIsGeneratingImage false
       (setError None
          (setGeneratedVideoUrl None
             (setGeneratedImage None (setPrompt defaultPrompt s))))).

(** What [renderContent] shows. *)
Inductive View :=
| Spinner
| ApiKeyPrompt
| VideoResult (url : jsstring)
| VideoAnimator (image : jsstring) (isLoading : bool)
    (loadingMessage : jsstring) (ratio : AspectRatio)
| LogoGenerator (text : jsstring) (isLoading : bool).

Definition renderContent (s : State) : View :=
  match apiKeySelected s with
  | None => Spinner
  | Some false => ApiKeyPrompt
  | Some true =>
      match generatedVideoUrl s with
      | Some (c :: url) => VideoResult (c :: url)
      | _ =>
          match generatedImage s with
          | Some (c :: image) =>
              VideoAnimator (c :: image) (isGeneratingVideo s)
                (videoLoadingMessage s) (aspectRatio s)
          | _ => LogoGenerator (prompt s) (isGeneratingImage s)
          end
      end
  end.

(** The stage of the view state machine, read off the rendered view. *)
Inductive Stage :=
| AwaitingCredential | NoCredential | Idle | GeneratingImage | ImageReady
| GeneratingVideo | VideoReady.

Definition stageOf (s : State) : Stage :=
  match renderContent s with
  | Spinner => AwaitingCredential
  | ApiKeyPrompt => NoCredential
  | VideoResult _ => VideoReady
  | VideoAnimator _ isLoading _ _ =>
      if isLoading then GeneratingVideo else ImageReady
  | LogoGenerator _ isLoading => if isLoading then GeneratingImage else Idle
  end.

(** A handler started on state [s] with an empty log. *)
Definition start (s : State) : World State := {| view := s; log := [] |}.

(** The image a handler passes on: the [generatedImage] of the render it was
    created in. *)
Definition capturedImage (s : State) : jsstring :=
  match generatedImage s with
  | Some image => image
  | None => []
  end.

(** Every image request asks for a square picture. *)
Definition squareRequest (e : Event) : Prop :=
  match e with
  | EvGenerateImages req =>
      Images.aspectRatio (Images.config req) = lit "1:1"
  | _ => True
  end.

(** What the user can do on the page: the controls of the four components
    and the handlers they are wired to. *)
Inductive Action :=
| ClickSelectKey                      (* "Select API Key": handleSelectKey *)
| TypePrompt (text : jsstring)        (* the textarea: setPrompt *)
| ClickGenerate                       (* "Generate Logo": handleGenerateLogo *)
| ClickRatio (ratio : AspectRatio)    (* '16:9' / '9:16': setAspectRatio *)
| ClickAnimate                        (* "Animate Logo": handleAnimateLogo *)
| ClickReset.                         (* "Start Over": handleReset *)

(** Whether a view renders the control of an action, and not [disabled]. *)
Definition offers (v : View) (a : Action) : bool :=
  match v, a with
  | ApiKeyPrompt, ClickSelectKey => true
  | VideoResult _, ClickReset => true
  | VideoAnimator _ isLoading _ _, ClickRatio _ => negb isLoading
  | VideoAnimator _ isLoading _ _, ClickAnimate => negb isLoading
  | LogoGenerator _ isLoading, TypePrompt _ => negb isLoading
  | LogoGenerator _ isLoading, ClickGenerate => negb isLoading
  | _, _ => false
  end.

Definition available (s : State) (a : Action) : bool :=
  offers (renderContent s) a.

End App.

(** ** App.tsx, the revision with the help dialog and no credential gate *)
Module AppHelp.

Record State := {
  prompt : jsstring;
  aspectRatio : AspectRatio;
  generatedImage : option jsstring;
  generatedVideoUrl : option jsstring;
  isGeneratingImage : bool;
  isGeneratingVideo : bool;
  videoLoadingMessage : jsstring;
  error : option jsstring;
  isHelpModalOpen : bool }.

Definition setPrompt (v : jsstring) (s : State) : State :=
  {| prompt := v; aspectRatio := aspectRatio s;
     generatedImage := generatedImage s;
     generatedVideoUrl := generatedVideoUrl s;
     isGeneratingImage := isGeneratingImage s;
     isGeneratingVideo := isGeneratingVideo s;
     videoLoadingMessage := videoLoadingMessage s; error := error s;
     isHelpModalOpen := isHelpModalOpen s |}.

Definition setGeneratedImage (v : option jsstring) (s : State) : State :=
  {| prompt := prompt s; aspectRatio := aspectRatio s;
     generatedImage := v;
     generatedVideoUrl := generatedVideoUrl s;
     isGeneratingImage := isGeneratingImage s;
     isGeneratingVideo := isGeneratingVideo s;
     videoLoadingMessage := videoLoadingMessage s; error := error s;
     isHelpModalOpen := isHelpModalOpen s |}.

Definition setGeneratedVideoUrl (v : option jsstring) (s : State) : State :=
  {| prompt := prompt s; aspectRatio := aspectRatio s;
     generatedImage := generatedImage s;
     generatedVideoUrl := v;
     isGeneratingImage := isGeneratingImage s;
     isGeneratingVideo := isGeneratingVideo s;
     videoLoadingMessage := videoLoadingMessage s; error := error s;
     isHelpModalOpen := isHelpModalOpen s |}.

Definition setIsGeneratingImage (v : bool) (s : State) : State :=
  {| prompt := prompt s; aspectRatio := aspectRatio s;
     generatedImage := generatedImage s;
     generatedVideoUrl := generatedVideoUrl s;
     isGeneratingImage := v;
     isGeneratingVideo := isGeneratingVideo s;
     videoLoadingMessage := videoLoadingMessage s; error := error s;
     isHelpModalOpen := isHelpModalOpen s |}.

Definition setIsGeneratingVideo (v : bool) (s : State) : State :=
  {| prompt := prompt s; aspectRatio := aspectRatio s;
     generatedImage := generatedImage s;
     generatedVideoUrl := generatedVideoUrl s;
     isGeneratingImage := isGeneratingImage s;
     isGeneratingVideo := v;
     videoLoadingMessage := videoLoadingMessage s; error := error s;
     isHelpModalOpen := isHelpModalOpen s |}.

Definition setVideoLoadingMessage (v : jsstring) (s : State) : State :=
  {| prompt := prompt s; aspectRatio := aspectRatio s;
     generatedImage := generatedImage s;
     generatedVideoUrl := generatedVideoUrl s;
     isGeneratingImage := isGeneratingImage s;
     isGeneratingVideo := isGeneratingVideo s;
     videoLoadingMessage := v; error := error s;
     isHelpModalOpen := isHelpModalOpen s |}.

Definition setError (v : option jsstring) (s : State) : State :=
  {| prompt := prompt s; aspectRatio := aspectRatio s;
     generatedImage := generatedImage s;
     generatedVideoUrl := generatedVideoUrl s;
     isGeneratingImage := isGeneratingImage s;
     isGeneratingVideo := isGeneratingVideo s;
     videoLoadingMessage := videoLoadingMessage s; error := v;
     isHelpModalOpen := isHelpModalOpen s |}.

Section Handlers.
Variable host : Host.

Definition handleGenerateLogo : M State unit :=
  s <- getView ;;
  match trim (prompt s) with
  | [] => setView (setError (Some App.promptRequired))
  | _ :: _ =>
      setView (setError None) ;;
      setView (setIsGeneratingImage true) ;;
      tryFinally
        (tryCatch
           (imageData <- GeminiService.generateLogoImage host (prompt s) ;;
            setView (setGeneratedImage (Some imageData)))
           (fun e => setView (setError (Some (App.shownMessage e)))))
        (setView (setIsGeneratingImage false))
  end.

Definition handleAnimateLogo (fuel : nat) : M State unit :=
  s <- getView ;;
  match generatedImage s with
  | Some (c :: image') =>
      setView (setError None) ;;
      setView (setIsGeneratingVideo true) ;;
      setView (setVideoLoadingMessage (lit "Starting animation process...")) ;;
      tryFinally
        (tryCatch
           (videoUrl <- GeminiService.animateLogo host fuel (c :: image')
                          (aspectRatio s) setVideoLoadingMessage ;;
            setView (setGeneratedVideoUrl (Some videoUrl)))
           (fun e => setView (setError (Some (App.shownMessage e)))))
        (setView (setIsGeneratingVideo false))
  | _ => ret tt
  end.

End Handlers.

Definition handleReset (s : State) : State :=
  setIsGeneratingVideo false
    (setIsGeneratingImage false
       (setError None
          (setGeneratedVideoUrl None
             (setGeneratedImage None (setPrompt App.defaultPrompt s))))).

Definition setAspectRatio (v : AspectRatio) (s : State) : State :=
  {| prompt := prompt s; aspectRatio := v;
     generatedImage := generatedImage s;
     generatedVideoUrl := generatedVideoUrl s;
     isGeneratingImage := isGeneratingImage s;
     isGeneratingVideo := isGeneratingVideo s;
     videoLoadingMessage := videoLoadingMessage s; error := error s;
     isHelpModalOpen := isHelpModalOpen s |}.

Definition setIsHelpModalOpen (v : bool) (s : State) : State :=
  {| prompt := prompt s; aspectRatio := aspectRatio s;
     generatedImage := generatedImage s;
     generatedVideoUrl := generatedVideoUrl s;
     isGeneratingImage := isGeneratingImage s;
     isGeneratingVideo := isGeneratingVideo s;
     videoLoadingMessage := videoLoadingMessage s; error := error s;
     isHelpModalOpen := v |}.

(** What [renderContent] shows in this revision: there is no spinner and no
    key prompt. *)
Definition renderContent (s : State) : App.View :=
  match generatedVideoUrl s with
  | Some (c :: url) => App.VideoResult (c :: url)
  | _ =>
      match generatedImage s with
      | Some (c :: image) =>
          App.VideoAnimator (c :: image) (isGeneratingVideo s)
            (videoLoadingMessage s) (aspectRatio s)
      | _ => App.LogoGenerator (prompt s) (isGeneratingImage s)
      end
  end.

(** The state of this revision that holds the same prompt, ratio, image,
    video, flags, message and error as a state of the gated revision. *)
Definition ofGated (helpOpen : bool) (s : App.State) : State :=
  {| prompt := App.prompt s; aspectRatio := App.aspectRatio s;
     generatedImage := App.generatedImage s;
     generatedVideoUrl := App.generatedVideoUrl s;
     isGeneratingImage := App.isGeneratingImage s;
     isGeneratingVideo := App.isGeneratingVideo s;
     videoLoadingMessage := App.videoLoadingMessage s;
     error := App.error s;
     isHelpModalOpen := helpOpen |}.

End AppHelp.

(** ** Scripted hosts: the remote service answering from a list *)
Module Script.

(** The submission snapshot and the poll answers form the sequence
    [pending ++ [final]]: the poll sent with each snapshot of [pending], the
    [k]-th, [k+1]-th, ... call in turn, is answered with the next snapshot of
    the sequence. *)
Fixpoint polled (host : Host) (k : nat) (pending : list Videos.Operation)
  (final : Videos.Operation) : Prop :=
  match pending with
  | [] => True
  | operation :: rest =>
      getVideosOperation host k operation = Resolved (hd final rest)
      /\ polled host (S k) rest final
  end.

(** The events of the polling loop over [pending], entered with
    [messageIndex = i]. *)
Fixpoint pollTrace (i : nat) (pending : list Videos.Operation) : list Event :=
  match pending with
  | [] => []
  | operation :: rest =>
      EvProgress
        (nth (i mod length GeminiService.loadingMessages)
           GeminiService.loadingMessages [])
      :: EvSleep 8000
      :: EvGetVideosOperation operation
      :: pollTrace (S i) rest
  end.

(** The events [animateLogo] may add to the log when called with
    [imageBase64] and [aspectRatio]. *)
Definition animateEvent (imageBase64 : jsstring) (aspectRatio : AspectRatio)
  (e : Event) : Prop :=
  match e with
  | EvProgress _ | EvSleep _ | EvGetVideosOperation _ | EvFetch _
  | EvConsoleError _ _ => True
  | EvGenerateVideos req =>
      req = GeminiService.videoRequest imageBase64 aspectRatio
  | _ => False
  end.

(** The submission of [imageBase64] under [aspectRatio] and the polls that
    follow it (the first of them the [k]-th call) yield the snapshots
    [pending ++ [final]]: every snapshot of [pending] says "not done", [final]
    says "done". *)
Definition snapshots (host : Host) (imageBase64 : jsstring)
  (aspectRatio : AspectRatio) (k : nat) (pending : list Videos.Operation)
  (final : Videos.Operation) : Prop :=
  generateVideos host (GeminiService.videoRequest imageBase64 aspectRatio)
    = Resolved (hd final pending)
  /\ Forall (fun operation => Videos.done operation = false) pending
  /\ Videos.done final = true
  /\ polled host k pending final.

(** The log of a call of [animateLogo] up to the end of its polling loop. *)
Definition animateTrace (imageBase64 : jsstring) (aspectRatio : AspectRatio)
  (pending : list Videos.Operation) : list Event :=
  EvProgress (lit "Initiating animation sequence...")
  :: EvGenerateVideos (GeminiService.videoRequest imageBase64 aspectRatio)
  :: pollTrace 0 pending.

Definition pendingOp : Videos.Operation :=
  {| Videos.name := lit "operations/1"; Videos.done := false;
     Videos.response := None |}.

Definition doneOp (link : option jsstring) : Videos.Operation :=
  {| Videos.name := lit "operations/1"; Videos.done := true;
     Videos.response :=
       Some {| Videos.generatedVideos :=
                 Some [ {| Videos.video := Some {| Videos.uri := link |} |} ] |} |}.

(** A host with a key that answers the submission with [submit], the polls
    from [polls] (and "not done" ever after), and every fetch with
    [download]. *)
Definition scripted (submit : Settled Videos.Operation)
  (polls : list (Settled Videos.Operation)) (download : Settled Response)
  : Host :=
  {| API_KEY := Some (lit "KEY");
     generateImages := fun _ =>
       Resolved {| Images.generatedImages :=
         Some [ {| Images.image := Some {| Images.imageBytes := Some (lit "iVBOR") |} |} ] |};
     generateVideos := fun _ => submit;
     getVideosOperation := fun k _ => nth k polls (Resolved pendingOp);
     fetch := fun _ => download;
     createObjectURL := fun _ => lit "blob:video";
     aistudio :=
       Some {| hasSelectedApiKey := Some (Resolved false);
               openSelectKey := Resolved tt |} |}.

Definition sampleImage : jsstring := lit "data:image/png;base64,iVBOR".
Definition sampleLink : jsstring := lit "https://videos.example/v.mp4?alt=media".
Definition okDownload : Settled Response :=
  Resolved {| ok := true; statusText := lit "OK"; blob := Resolved [0; 1; 2]%N |}.

(** Two "not done" snapshots, then a "done" one with a link. *)
Definition hostTwoPending : Host :=
  scripted (Resolved pendingOp)
    [Resolved pendingOp; Resolved (doneOp (Some sampleLink))] okDownload.

(** The submission is answered "done" at once, without a link. *)
Definition hostNoLink : Host := scripted (Resolved (doneOp None)) [] okDownload.

(** The download is refused. *)
Definition hostForbidden : Host :=
  scripted (Resolved (doneOp (Some sampleLink))) []
    (Resolved {| ok := false; statusText := lit "Forbidden";
                 blob := Resolved [] |}).

(** The submission is rejected because the model is unknown. *)
Definition notFoundError : Thrown :=
  ErrorObj (lit "404 NOT_FOUND: Requested entity was not found. Check the model name.").
Definition hostNotFound : Host :=
  scripted (Rejected notFoundError) [] okDownload.

(** The submission is rejected because of the key. *)
Definition hostInvalidKey : Host :=
  scripted (Rejected (ErrorObj (lit "API key is invalid"))) [] okDownload.

(** The submission is rejected with a value that is no [Error] and whose
    [toString] throws an [Error] that speaks of the key. *)
Definition hostUnconvertible : Host :=
  scripted (Rejected (Unconvertible (ErrorObj (lit "API key is invalid")))) []
    okDownload.

(** A page without [window.aistudio]. *)
Definition withoutStudio (host : Host) : Host :=
  {| API_KEY := API_KEY host;
     generateImages := generateImages host;
     generateVideos := generateVideos host;
     getVideosOperation := getVideosOperation host;
     fetch := fetch host;
     createObjectURL := createObjectURL host;
     aistudio := None |}.

(** The view with a key selected and a logo generated. *)
Definition imageReady : App.State :=
  {| App.apiKeySelected := Some true;
     App.prompt := App.defaultPrompt;
     App.aspectRatio := AR_9_16;
     App.generatedImage := Some sampleImage;
     App.generatedVideoUrl := None;
     App.isGeneratingImage := false;
     App.isGeneratingVideo := false;
     App.videoLoadingMessage := [];
     App.error := None |}.

(** The view with a key selected and a prompt of blanks: a space, a tab, a
    no-break space and a line feed. *)
Definition blankPrompt : App.State :=
  App.setPrompt [32; 9; 160; 10]%N
    (App.setApiKeySelected (Some true) App.initialState).

(** The help-dialog revision before any logo was generated. *)
Definition helpIdle : AppHelp.State :=
  {| AppHelp.prompt := App.defaultPrompt;
     AppHelp.aspectRatio := AR_16_9;
     AppHelp.generatedImage := None;
     AppHelp.generatedVideoUrl := None;
     AppHelp.isGeneratingImage := false;
     AppHelp.isGeneratingVideo := false;
     AppHelp.videoLoadingMessage := [];
     AppHelp.error := None;
     AppHelp.isHelpModalOpen := false |}.

(** A caller without a view. *)
Definition bare : World unit := {| view := tt; log := [] |}.
Definition ignore (message : jsstring) (s : unit) : unit := s.

End Script.
Import Script.

(** ** Reading a log *)
Module Traces.

Definition isSleep (e : Event) : bool :=
  match e with EvSleep _ => true | _ => false end.

Definition isImageCall (e : Event) : bool :=
  match e with EvGenerateImages _ => true | _ => false end.

(** The progress messages of a log, in the order they were sent. *)
Fixpoint progressOf (l : list Event) : list jsstring :=
  match l with
  | [] => []
  | EvProgress message :: rest => message :: progressOf rest
  | _ :: rest => progressOf rest
  end.

(** The snapshots a log sent back with [getVideosOperation], in order. *)
Fixpoint polledWith (l : list Event) : list Videos.Operation :=
  match l with
  | [] => []
  | EvGetVideosOperation operation :: rest => operation :: polledWith rest
  | _ :: rest => polledWith rest
  end.

(** The text the [catch] block of [animateLogo] works on, when taking it
    does not throw. *)
Definition messageText (e : Thrown) : option jsstring :=
  match e with
  | ErrorObj message => Some message
  | NonError text => Some text
  | Unconvertible _ => None
  end.

(** What leaves the [catch] block of [animateLogo] entered with [e]. *)
Definition surfaced (e : Thrown) : Thrown :=
  match e with
  | ErrorObj text | NonError text =>
      ErrorObj (if includes text GeminiService.notFoundPhrase
                then GeminiService.notFoundMessage
                else GeminiService.animateFailure)
  | Unconvertible raised => raised
  end.

(** The loop's message of iteration [i]. *)
Definition loopMessage (i : nat) : jsstring :=
  nth (i mod length GeminiService.loadingMessages)
    GeminiService.loadingMessages [].

(** Every pause of the log lasts 8000 ms. *)
Definition pausesEightSeconds (e : Event) : Prop :=
  match e with EvSleep ms => ms = 8000%N | _ => True end.

(** A world seen through a map of its view. *)
Definition mapWorld {S T} (f : S -> T) (w : World S) : World T :=
  {| view := f (view w); log := log w |}.

(** Two computations over different views that do the same thing: run on
    worlds that [f] relates, they end alike, with the same log, in worlds that
    [f] relates. *)
Definition natural {S T A} (f : S -> T) (m1 : M S A) (m2 : M T A) : Prop :=
  forall w, m2 (mapWorld f w) = (fst (m1 w), mapWorld f (snd (m1 w))).

(** A host that answers every image request with one picture of the given
    bytes. *)
Definition imageHost (bytes : option jsstring) : Host :=
  {| API_KEY := API_KEY hostTwoPending;
     generateImages := fun _ =>
       Resolved {| Images.generatedImages :=
         Some [ {| Images.image := Some {| Images.imageBytes := bytes |} |} ] |};
     generateVideos := generateVideos hostTwoPending;
     getVideosOperation := getVideosOperation hostTwoPending;
     fetch := fetch hostTwoPending;
     createObjectURL := createObjectURL hostTwoPending;
     aistudio := aistudio hostTwoPending |}.

(** A host without a key in the environment. *)
Definition withoutKey (host : Host) : Host :=
  {| API_KEY := None;
     generateImages := generateImages host;
     generateVideos := generateVideos host;
     getVideosOperation := getVideosOperation host;
     fetch := fetch host;
     createObjectURL := createObjectURL host;
     aistudio := aistudio host |}.

(** The view with a key selected, nothing generated yet. *)
Definition idle : App.State :=
  App.setApiKeySelected (Some true) App.initialState.

End Traces.
Import Traces.

(** ** Sample runs *)

Example split_data_uri :
  nth_error (split 44 (lit "data:image/png;base64,iVBOR")) 1 = Some (lit "iVBOR").
Proof. reflexivity. Qed.

Example trim_inner : trim (lit "  a b  ") = lit "a b".
Proof. reflexivity. Qed.

(** * Properties *)

(** ** Strings *)
Module JsFacts.

Lemma startsWith_app (sub rest : jsstring) : startsWith (sub ++ rest) sub = true.
Proof.
  induction sub as [|c sub IH]; simpl.
  - reflexivity.
  - now rewrite N.eqb_refl, IH.
Qed.

Lemma startsWith_inv (s sub : jsstring) :
  startsWith s sub = true -> exists rest, s = sub ++ rest.
Proof.
  revert s; induction sub as [|c sub IH]; intros s H.
  - now exists s.
  - destruct s as [|d s]; simpl in H; [discriminate|].
    apply andb_true_iff in H as [Hc Hs].
    apply N.eqb_eq in Hc; subst d.
    destruct (IH _ Hs) as [rest ->].
    now exists rest.
Qed.

(** [includes] is the substring test. *)
Lemma includes_iff (s sub : jsstring) :
  includes s sub = true <-> exists before after, s = before ++ sub ++ after.
Proof.
  split.
  - induction s as [|c s IH]; simpl; intros H.
    + rewrite orb_false_r in H.
      destruct (startsWith_inv _ _ H) as [rest ->]. now exists [], rest.
    + apply orb_true_iff in H as [H|H].
      * destruct (startsWith_inv _ _ H) as [rest E]. exists [], rest. exact E.
      * destruct (IH H) as (b & a & ->). now exists (c :: b), a.
  - intros (b & a & ->).
    induction b as [|c b IH]; simpl.
    + pose proof (startsWith_app sub a) as H.
      destruct (sub ++ a); simpl; now rewrite H.
    + rewrite IH. apply orb_true_r.
Qed.

(** An occurrence cannot start at a unit that differs from the first unit of
    the pattern. *)
Lemma includes_skip (c h : N) (s sub : jsstring) :
  c <> h -> includes (c :: s) (h :: sub) = includes s (h :: sub).
Proof.
  intros Hne. simpl.
  destruct (N.eqb_spec h c) as [->|_]; [congruence | reflexivity].
Qed.

Lemma trimStart_nil_iff (s : jsstring) :
  trimStart s = [] <-> forallb isWhiteSpace s = true.
Proof.
  induction s as [|c s IH]; simpl.
  - tauto.
  - destruct (isWhiteSpace c); simpl.
    + exact IH.
    + split; discriminate.
Qed.

Lemma trimStart_whitespace (s : jsstring) :
  forallb isWhiteSpace s = true -> trimStart s = [].
Proof. apply trimStart_nil_iff. Qed.

Lemma trimStart_suffix (s : jsstring) :
  exists blanks, s = blanks ++ trimStart s /\ forallb isWhiteSpace blanks = true.
Proof.
  induction s as [|c s (b & E & Hb)]; simpl.
  - now exists [].
  - destruct (isWhiteSpace c) eqn:Hc.
    + exists (c :: b). simpl. rewrite Hc, Hb. split; [now f_equal | reflexivity].
    + now exists [].
Qed.

(** [trim] leaves nothing exactly when every code unit is white space (the
    empty string included). *)
Lemma trim_nil_iff (s : jsstring) :
  trim s = [] <-> forallb isWhiteSpace s = true.
Proof.
  unfold trim, trimEnd. split.
  - intros H.
    assert (Hr : trimStart (rev (trimStart s)) = []).
    { rewrite <- (rev_involutive (trimStart _)), H. reflexivity. }
    apply trimStart_nil_iff in Hr.
    rewrite forallb_forall in Hr.
    destruct (trimStart_suffix s) as (b & E & Hb).
    rewrite E, forallb_app, Hb. simpl.
    apply forallb_forall. intros x Hx. apply Hr, in_rev.
    now rewrite rev_involutive.
  - intros H. now rewrite (trimStart_whitespace _ H).
Qed.

End JsFacts.

(** ** The effect monad: relations every step of a computation respects *)
Module EffFacts.

Lemma count_app (p : Event -> bool) (a b : list Event) :
  count p (a ++ b) = count p a + count p b.
Proof. unfold count. now rewrite filter_app, length_app. Qed.

Lemma count_cons (p : Event -> bool) (e : Event) (l : list Event) :
  count p (e :: l) = (if p e then 1 else 0) + count p l.
Proof. unfold count. simpl. now destruct (p e). Qed.

Lemma count_single (p : Event -> bool) (e : Event) :
  count p [e] = if p e then 1 else 0.
Proof. unfold count. simpl. now destruct (p e). Qed.

Section Respects.
Variable S : Type.
Variable R : World S -> World S -> Prop.
Hypothesis R_refl : forall w, R w w.
Hypothesis R_trans : forall a b c, R a b -> R b c -> R a c.

(** [m] takes every world to a world related to it by [R]. *)
Definition respects {A} (m : M S A) : Prop := forall w, R w (snd (m w)).

Lemma respects_ret A (a : A) : respects (ret a).
Proof. intros w. apply R_refl. Qed.

Lemma respects_throw A (e : Thrown) : respects (@throw S A e).
Proof. intros w. apply R_refl. Qed.

Lemma respects_unsettled A : respects (@unsettled S A).
Proof. intros w. apply R_refl. Qed.

Lemma respects_getView : respects (@getView S).
Proof. intros w. apply R_refl. Qed.

Lemma respects_await A (p : Settled A) : respects (@await S A p).
Proof. destruct p; intros w; apply R_refl. Qed.

Lemma respects_bind A B (m : M S A) (k : A -> M S B) :
  respects m -> (forall a, respects (k a)) -> respects (bind m k).
Proof.
  intros Hm Hk w. unfold bind. specialize (Hm w).
  destruct (m w) as [[a|e|] w']; simpl in *; try assumption.
  eapply R_trans; [exact Hm | apply Hk].
Qed.

Lemma respects_tryCatch A (m : M S A) (handler : Thrown -> M S A) :
  respects m -> (forall e, respects (handler e)) -> respects (tryCatch m handler).
Proof.
  intros Hm Hh w. unfold tryCatch. specialize (Hm w).
  destruct (m w) as [[a|e|] w']; simpl in *; try assumption.
  eapply R_trans; [exact Hm | apply Hh].
Qed.

Lemma respects_tryFinally A (m : M S A) (f : M S unit) :
  respects m -> respects f -> respects (tryFinally m f).
Proof.
  intros Hm Hf w. unfold tryFinally. specialize (Hm w).
  destruct (m w) as [[a|e|] w']; simpl in *; try assumption;
    specialize (Hf w'); destruct (f w') as [[[]|e'|] w'']; simpl in *;
    eapply R_trans; eassumption.
Qed.

End Respects.

(** Two instances: a property of the view that is kept, and a log that only
    grows by events of a given kind. *)
Definition keeps {S} (P : S -> Prop) (w w' : World S) : Prop :=
  P (view w) -> P (view w').

Definition grows {S} (Q : Event -> Prop) (w w' : World S) : Prop :=
  exists evs, log w' = log w ++ evs /\ Forall Q evs.

Lemma keeps_refl S (P : S -> Prop) w : keeps P w w.
Proof. now intros H. Qed.

Lemma keeps_trans S (P : S -> Prop) a b c :
  keeps P a b -> keeps P b c -> keeps P a c.
Proof. unfold keeps. tauto. Qed.

Lemma grows_refl S (Q : Event -> Prop) (w : World S) : grows Q w w.
Proof. exists []. now rewrite app_nil_r. Qed.

Lemma grows_trans S (Q : Event -> Prop) (a b c : World S) :
  grows Q a b -> grows Q b c -> grows Q a c.
Proof.
  intros (e1 & E1 & H1) (e2 & E2 & H2). exists (e1 ++ e2). split.
  - now rewrite E2, E1, app_assoc.
  - apply Forall_app. now split.
Qed.

End EffFacts.
Import EffFacts.

(** ** services/geminiService.ts *)
Module ServiceFacts.
Import GeminiService.

(** One turn of the [while] loop. *)
Lemma pollLoop_unfold S (host : Host) fuel (updateLoadingMessage : jsstring -> S -> S)
  messageIndex operation :
  pollLoop host fuel updateLoadingMessage messageIndex operation =
  if Videos.done operation then ret operation
  else
    match fuel with
    | O => unsettled
    | Datatypes.S fuel' =>
        progress updateLoadingMessage
          (nth (messageIndex mod length loadingMessages) loadingMessages []) ;;
        sleep 8000 ;;
        operation' <- callGetVideosOperation host operation ;;
        pollLoop host fuel' updateLoadingMessage (Datatypes.S messageIndex)
          operation'
    end.
Proof. destruct fuel; reflexivity. Qed.

Section Frame.
Variable S : Type.
Variable host : Host.
Variable R : World S -> World S -> Prop.
Hypothesis R_refl : forall w, R w w.
Hypothesis R_trans : forall a b c, R a b -> R b c -> R a c.
Variable imageBase64 : jsstring.
Variable aspectRatio : AspectRatio.
Variable updateLoadingMessage : jsstring -> S -> S.
Hypothesis R_emit :
  forall e, animateEvent imageBase64 aspectRatio e -> respects R (emit e).
Hypothesis R_callback :
  forall message, respects R (setView (updateLoadingMessage message)).

Local Ltac step :=
  first [ apply respects_bind; [ exact R_trans | | intro ]
        | apply respects_ret; exact R_refl
        | apply respects_throw; exact R_refl
        | apply respects_unsettled; exact R_refl
        | apply respects_await; exact R_refl
        | apply R_callback
        | apply R_emit; exact I ].

Lemma progress_respects message :
  respects R (progress updateLoadingMessage message).
Proof. unfold progress. repeat step. Qed.

Lemma callGetVideosOperation_respects operation :
  respects R (callGetVideosOperation host operation).
Proof.
  intros w. unfold callGetVideosOperation.
  apply respects_bind; [exact R_trans | apply R_emit; exact I | intros _; step].
Qed.

Lemma pollLoop_respects fuel :
  forall messageIndex operation,
    respects R (pollLoop host fuel updateLoadingMessage messageIndex operation).
Proof.
  induction fuel as [|fuel IH]; intros i op; rewrite pollLoop_unfold;
    destruct (Videos.done op); try (step; fail).
  step; [apply progress_respects|].
  step; [unfold sleep; step|].
  step; [apply callGetVideosOperation_respects|].
  apply IH.
Qed.

Lemma animateLogo_try_respects fuel :
  respects R
    (animateLogo_try host fuel imageBase64 aspectRatio updateLoadingMessage).
Proof.
  unfold animateLogo_try.
  step; [unfold getGeminiClient; destruct (truthy _); step|].
  step; [apply progress_respects|].
  step; [unfold callGenerateVideos; step; [apply R_emit; reflexivity | step]|].
  step; [apply pollLoop_respects|].
  unfold fetchVideo.
  step; [apply progress_respects|].
  destruct (negb _); [step|].
  step; [unfold callFetch; repeat step|].
  destruct (negb _); repeat step.
Qed.

(** Whatever relation the events and the callback respect, a whole call of
    [animateLogo] respects. *)
Lemma animateLogo_respects fuel :
  respects R (animateLogo host fuel imageBase64 aspectRatio updateLoadingMessage).
Proof.
  unfold animateLogo.
  apply respects_tryCatch; [exact R_trans | |].
  - apply animateLogo_try_respects.
  - intros e. unfold animateLogo_catch, consoleError.
    step; [apply R_emit; exact I|].
    step; [unfold errorMessageOf; destruct e; step|].
    destruct (includes _ _); step.
Qed.

End Frame.

Section Runs.
Variable S : Type.
Variable host : Host.
Variable updateLoadingMessage : jsstring -> S -> S.

Lemma pollTrace_count (p : Event -> bool) pending :
  p (EvSleep 8000) = false ->
  (forall m, p (EvProgress m) = p (EvProgress [])) ->
  (forall op, p (EvGetVideosOperation op) = p (EvGetVideosOperation pendingOp)) ->
  forall i,
    count p (pollTrace i pending) =
    length pending *
    ((if p (EvProgress []) then 1 else 0)
     + (if p (EvGetVideosOperation pendingOp) then 1 else 0)).
Proof.
  intros Hs Hp Hg. unfold count.
  induction pending as [|op rest IH]; intros i; simpl.
  - reflexivity.
  - rewrite Hp, Hs, Hg.
    destruct (p (EvProgress [])), (p (EvGetVideosOperation pendingOp));
      simpl; rewrite IH; simpl; lia.
Qed.

(** The loop over a scripted sequence: it ends with the final snapshot after
    one poll per pending snapshot. *)
Lemma pollLoop_polled pending final :
  Forall (fun operation => Videos.done operation = false) pending ->
  Videos.done final = true ->
  forall fuel i (w : World S),
    polled host (count isPoll (log w)) pending final ->
    length pending <= fuel ->
    exists v,
      pollLoop host fuel updateLoadingMessage i (hd final pending) w =
      (Returned final, {| view := v; log := log w ++ pollTrace i pending |}).
Proof.
  intros Hpending Hfinal.
  induction Hpending as [|op rest Hop _ IH]; intros fuel i w Hpolled Hfuel.
  - exists (view w). rewrite pollLoop_unfold. simpl. rewrite Hfinal.
    destruct w. unfold ret. simpl. now rewrite app_nil_r.
  - destruct fuel as [|fuel]; [simpl in Hfuel; lia|].
    destruct Hpolled as [Hanswer Hrest]. destruct w as [v0 l].
    simpl in Hanswer, Hrest, Hfuel.
    rewrite pollLoop_unfold. change (hd final (op :: rest)) with op. rewrite Hop.
    cbv beta iota delta
      [bind progress emit setView sleep callGetVideosOperation view log].
    rewrite !count_app. simpl (count isPoll [_]). rewrite !Nat.add_0_r, Hanswer.
    cbv beta iota delta [await ret].
    match goal with |- context [pollLoop _ _ _ _ _ ?w1] =>
      destruct (IH fuel (Datatypes.S i) w1) as [v Hv] end.
    + simpl. rewrite !count_app. simpl (count isPoll [_]).
      now rewrite !Nat.add_0_r, Nat.add_1_r.
    + lia.
    + exists v. rewrite Hv. simpl. now rewrite <- !app_assoc.
Qed.

Lemma animateLogo_try_reaches fuel imageBase64 aspectRatio pending final
  (w : World S) :
  truthy (API_KEY host) = true ->
  snapshots host imageBase64 aspectRatio (count isPoll (log w)) pending final ->
  length pending <= fuel ->
  exists v,
    animateLogo_try host fuel imageBase64 aspectRatio updateLoadingMessage w =
    fetchVideo host updateLoadingMessage final
      {| view := v;
         log := log w ++ animateTrace imageBase64 aspectRatio pending |}.
Proof.
  intros Hkey (Hsubmit & Hpending & Hfinal & Hpolled) Hfuel.
  destruct w as [v0 l]. simpl in Hpolled.
  unfold animateLogo_try, getGeminiClient. rewrite Hkey.
  cbv beta iota delta
    [bind ret progress emit setView callGenerateVideos view log].
  rewrite Hsubmit. cbv beta iota delta [await ret].
  match goal with |- context [pollLoop _ _ _ _ _ ?w1] =>
    destruct (@pollLoop_polled pending final Hpending Hfinal fuel 0 w1)
      as [v Hv] end.
  - simpl. rewrite !count_app. simpl (count isPoll [_]).
    now rewrite !Nat.add_0_r.
  - exact Hfuel.
  - exists v. rewrite Hv. simpl. unfold animateTrace.
    now rewrite <- !app_assoc.
Qed.

Lemma fetchVideo_no_link operation (w : World S) :
  truthy (downloadLink operation) = false ->
  fetchVideo host updateLoadingMessage operation w =
  (Threw (ErrorObj noDownloadLink),
   {| view := updateLoadingMessage completeMessage (view w);
      log := log w ++ [EvProgress completeMessage] |}).
Proof.
  intros Hlink. unfold fetchVideo. rewrite Hlink. reflexivity.
Qed.

Lemma fetchVideo_answered operation link resp (w : World S) :
  downloadLink operation = Some link ->
  truthy (Some link) = true ->
  fetch host (link ++ lit "&key=" ++ template (API_KEY host)) = Resolved resp ->
  fetchVideo host updateLoadingMessage operation w =
  (if ok resp then
     match blob resp with
     | Resolved data => Returned (createObjectURL host data)
     | Rejected e => Threw e
     end
   else Threw (ErrorObj (downloadFailed (statusText resp))),
   {| view := updateLoadingMessage completeMessage (view w);
      log := log w ++ [EvProgress completeMessage;
                       EvFetch (link ++ lit "&key=" ++ template (API_KEY host))] |}).
Proof.
  intros Hlink Htruthy Hfetch. unfold fetchVideo. rewrite Hlink, Htruthy.
  change (template (Some link)) with link.
  cbv beta iota delta
    [bind ret progress emit setView callFetch view log negb].
  rewrite Hfetch. cbv beta iota delta [await ret].
  rewrite <- app_assoc. simpl app.
  destruct (ok resp); [destruct (blob resp)|]; reflexivity.
Qed.

(** The [catch] block logs the error and throws: one of two fixed messages
    when it can take the text of the error, else what taking it threw. *)
Lemma animateLogo_catch_run error (w : World S) :
  animateLogo_catch error w =
  (Threw (surfaced error),
   {| view := view w; log := log w ++ [EvConsoleError animateLabel error] |}).
Proof.
  unfold animateLogo_catch, consoleError, errorMessageOf, surfaced.
  destruct error as [message|text|raised];
    cbv beta iota delta [bind emit ret throw];
    try destruct (includes _ _); reflexivity.
Qed.

(** A call that fails has logged, last, what its [try] block threw, and
    fails with what the [catch] block made of it. *)
Lemma animateLogo_throws fuel imageBase64 aspectRatio (w : World S) x :
  fst (animateLogo host fuel imageBase64 aspectRatio updateLoadingMessage w)
    = Threw x ->
  exists e before,
    log (snd (animateLogo host fuel imageBase64 aspectRatio
                updateLoadingMessage w))
    = before ++ [EvConsoleError animateLabel e]
    /\ x = surfaced e.
Proof.
  unfold animateLogo, tryCatch.
  destruct (animateLogo_try _ _ _ _ _ w) as [[a|e0|] w1]; simpl;
    try discriminate.
  rewrite animateLogo_catch_run. simpl. intros [= <-].
  now exists e0, (log w1).
Qed.

End Runs.

(** No occurrence of a pattern starts inside a prefix that lacks the
    pattern's first code unit. *)
Lemma includes_skip_prefix (pre s sub : jsstring) (h : N) :
  hd_error sub = Some h ->
  forallb (fun c => negb (N.eqb c h)) pre = true ->
  includes (pre ++ s) sub = includes s sub.
Proof.
  intros Hh Hpre. destruct sub as [|h' sub]; [discriminate|].
  injection Hh as ->.
  induction pre as [|c pre IH]; [reflexivity|].
  simpl in Hpre. apply andb_true_iff in Hpre as [Hc Hpre].
  change ((c :: pre) ++ s) with (c :: pre ++ s).
  rewrite JsFacts.includes_skip, IH; auto.
  intros ->. now rewrite N.eqb_refl in Hc.
Qed.

Lemma downloadFailed_not_found (statusText : jsstring) :
  includes (downloadFailed statusText) notFoundPhrase
  = includes statusText notFoundPhrase.
Proof.
  unfold downloadFailed. apply includes_skip_prefix with (h := 82%N);
    reflexivity.
Qed.

End ServiceFacts.

(** ** The animation orchestrator *)
Module AnimateClaims.
Import GeminiService ServiceFacts.

Section Orchestrator.
Variable S : Type.
Variable host : Host.
Variable updateLoadingMessage : jsstring -> S -> S.

(** C1 (as amended).  When the submission snapshot and the poll answers form
    a sequence of N "not done" snapshots followed by a "done" one that carries
    a result link, and the download succeeds, [animateLogo] returns the
    playable resource after exactly one submission and exactly N calls of
    [getVideosOperation] (N+1 calls that return a snapshot, the submission
    counted), N+2 progress messages and one fetch; any fuel of at least N
    suffices. *)
Theorem animateLogo_polls_each_pending_snapshot
  fuel imageBase64 aspectRatio (w : World S) pending final link resp data :
  truthy (API_KEY host) = true ->
  snapshots host imageBase64 aspectRatio (count isPoll (log w)) pending final ->
  downloadLink final = Some link ->
  truthy (Some link) = true ->
  fetch host (link ++ lit "&key=" ++ template (API_KEY host)) = Resolved resp ->
  ok resp = true ->
  blob resp = Resolved data ->
  length pending <= fuel ->
  exists v evs,
    animateLogo host fuel imageBase64 aspectRatio updateLoadingMessage w
      = (Returned (createObjectURL host data),
         {| view := v; log := log w ++ evs |})
    /\ count isPoll evs = length pending
    /\ count isSubmit evs = 1
    /\ count isPoll evs + count isSubmit evs = length pending + 1
    /\ count isProgress evs = length pending + 2
    /\ count isFetch evs = 1.
Proof.
  intros Hkey Hsnap Hlink Htruthy Hfetch Hok Hblob Hfuel.
  destruct (@animateLogo_try_reaches S host updateLoadingMessage fuel
              imageBase64 aspectRatio pending final w Hkey Hsnap Hfuel)
    as [v Hrun].
  eexists. eexists. split.
  - unfold animateLogo, tryCatch. rewrite Hrun.
    rewrite (@fetchVideo_answered S host updateLoadingMessage final link resp
               _ Hlink Htruthy Hfetch), Hok, Hblob.
    simpl. rewrite <- app_assoc. reflexivity.
  - unfold animateTrace.
    rewrite !count_app, !count_cons.
    rewrite !(@pollTrace_count _ pending) by reflexivity.
    simpl. unfold count. simpl. lia.
Qed.

(** C4 (as amended).  When the final snapshot says "done" but carries no
    result link, [animateLogo] raises the "no download link" error inside its
    [try] block, where it is only logged; its caller gets the generic
    animate-failure message, and no fetch is made. *)
Theorem animateLogo_no_link_no_fetch
  fuel imageBase64 aspectRatio (w : World S) pending final :
  truthy (API_KEY host) = true ->
  snapshots host imageBase64 aspectRatio (count isPoll (log w)) pending final ->
  truthy (downloadLink final) = false ->
  length pending <= fuel ->
  exists v evs,
    animateLogo host fuel imageBase64 aspectRatio updateLoadingMessage w
      = (Threw (ErrorObj animateFailure), {| view := v; log := log w ++ evs |})
    /\ evs = animateTrace imageBase64 aspectRatio pending
             ++ [EvProgress completeMessage;
                 EvConsoleError animateLabel (ErrorObj noDownloadLink)]
    /\ count isFetch evs = 0.
Proof.
  intros Hkey Hsnap Hlink Hfuel.
  destruct (@animateLogo_try_reaches S host updateLoadingMessage fuel
              imageBase64 aspectRatio pending final w Hkey Hsnap Hfuel)
    as [v Hrun].
  eexists. eexists. split; [|split; [reflexivity|]].
  - unfold animateLogo, tryCatch. rewrite Hrun.
    rewrite (@fetchVideo_no_link S host updateLoadingMessage final _ Hlink),
      animateLogo_catch_run.
    simpl. rewrite <- !app_assoc. reflexivity.
  - unfold animateTrace.
    rewrite !count_app, !count_cons.
    rewrite (@pollTrace_count _ pending) by reflexivity.
    simpl. unfold count. simpl. lia.
Qed.

(** C5 (as amended).  When the download is answered with a non-success
    status, [animateLogo] returns no playable resource: it raises an error
    that carries the status text inside its [try] block, where it is only
    logged, and its caller gets the generic animate-failure message (the
    "not found" message if the status text happens to contain that phrase). *)
Theorem animateLogo_download_refused
  fuel imageBase64 aspectRatio (w : World S) pending final link resp :
  truthy (API_KEY host) = true ->
  snapshots host imageBase64 aspectRatio (count isPoll (log w)) pending final ->
  downloadLink final = Some link ->
  truthy (Some link) = true ->
  fetch host (link ++ lit "&key=" ++ template (API_KEY host)) = Resolved resp ->
  ok resp = false ->
  length pending <= fuel ->
  exists v,
    animateLogo host fuel imageBase64 aspectRatio updateLoadingMessage w
      = (Threw (ErrorObj (if includes (statusText resp) notFoundPhrase
                          then notFoundMessage else animateFailure)),
         {| view := v;
            log := log w ++ animateTrace imageBase64 aspectRatio pending
                   ++ [EvProgress completeMessage;
                       EvFetch (link ++ lit "&key=" ++ template (API_KEY host));
                       EvConsoleError animateLabel
                         (ErrorObj (downloadFailed (statusText resp)))] |}).
Proof.
  intros Hkey Hsnap Hlink Htruthy Hfetch Hok Hfuel.
  destruct (@animateLogo_try_reaches S host updateLoadingMessage fuel
              imageBase64 aspectRatio pending final w Hkey Hsnap Hfuel)
    as [v Hrun].
  eexists.
  unfold animateLogo, tryCatch. rewrite Hrun.
  rewrite (@fetchVideo_answered S host updateLoadingMessage final link resp
             _ Hlink Htruthy Hfetch), Hok.
  rewrite animateLogo_catch_run. cbn [surfaced].
  rewrite downloadFailed_not_found. simpl. rewrite <- !app_assoc. reflexivity.
Qed.

(** C2 (as amended).  An error thrown inside the [try] block of
    [animateLogo] whose message can be read (it is an [Error], or a value
    that [String] converts) is logged and replaced: the caller gets a new
    error whose message is the fixed text "Requested entity was not found."
    when the message of the original contains "Requested entity was not
    found" as a substring, and the fixed generic message otherwise. *)
Theorem animateLogo_replaces_errors
  fuel imageBase64 aspectRatio (w w1 : World S) (e : Thrown)
  (message : jsstring) :
  animateLogo_try host fuel imageBase64 aspectRatio updateLoadingMessage w
    = (Threw e, w1) ->
  messageText e = Some message ->
  exists shown,
    animateLogo host fuel imageBase64 aspectRatio updateLoadingMessage w
      = (Threw (ErrorObj shown),
         {| view := view w1;
            log := log w1 ++ [EvConsoleError animateLabel e] |})
    /\ ((exists before after,
           message = before ++ notFoundPhrase ++ after)
        -> shown = notFoundMessage)
    /\ (~ (exists before after,
             message = before ++ notFoundPhrase ++ after)
        -> shown = animateFailure).
Proof.
  intros Hrun Htext.
  exists (if includes message notFoundPhrase
          then notFoundMessage else animateFailure).
  split; [|split].
  - unfold animateLogo, tryCatch. rewrite Hrun, animateLogo_catch_run.
    destruct e as [m|t|raised]; try discriminate;
      injection Htext as ->; reflexivity.
  - intros H. apply JsFacts.includes_iff in H. now rewrite H.
  - intros H. destruct (includes _ _) eqn:E; [|reflexivity].
    apply JsFacts.includes_iff in E. contradiction.
Qed.

End Orchestrator.

(** The polling loop has no bound of its own: while the service keeps
    answering "not done", a call of [animateLogo] is still running after any
    number of polls. *)
Theorem animateLogo_unsettled_while_pending S (host : Host)
  (updateLoadingMessage : jsstring -> S -> S) imageBase64 aspectRatio first :
  truthy (API_KEY host) = true ->
  generateVideos host (videoRequest imageBase64 aspectRatio) = Resolved first ->
  Videos.done first = false ->
  (forall k operation, exists next,
      getVideosOperation host k operation = Resolved next
      /\ Videos.done next = false) ->
  forall fuel (w : World S),
    let run :=
      animateLogo host fuel imageBase64 aspectRatio updateLoadingMessage w in
    fst run = Unsettled
    /\ count isPoll (log (snd run)) = count isPoll (log w) + fuel.
Proof.
  intros Hkey Hsubmit Hfirst Hnever fuel w.
  assert (Hloop : forall fuel i operation (w0 : World S),
             Videos.done operation = false ->
             exists w1,
               pollLoop host fuel updateLoadingMessage i operation w0
                 = (Unsettled, w1)
               /\ count isPoll (log w1) = count isPoll (log w0) + fuel).
  { clear Hsubmit Hfirst w fuel. intros fuel. induction fuel as [|fuel IH];
      intros i operation w0 Hpending; rewrite pollLoop_unfold, Hpending.
    - exists w0. split; [reflexivity | lia].
    - destruct (Hnever (count isPoll (log w0)) operation)
        as (next & Hanswer & Hnext).
      destruct w0 as [v0 l]. simpl in Hanswer.
      cbv beta iota delta
        [bind progress emit setView sleep callGetVideosOperation view log].
      rewrite !count_app. simpl (count isPoll [_]).
      rewrite !Nat.add_0_r, Hanswer.
      cbv beta iota delta [await ret].
      match goal with |- context [pollLoop _ _ _ ?j ?op ?w1] =>
        destruct (IH j op w1 Hnext) as (w2 & Hrun & Hcount) end.
      exists w2. split; [exact Hrun|].
      cbn [log] in Hcount. rewrite !count_app, !count_single in Hcount.
      cbn [isPoll] in Hcount.
      change (count isPoll (log w2) = count isPoll l + Datatypes.S fuel).
      lia. }
  destruct w as [v0 l].
  unfold animateLogo, tryCatch, animateLogo_try, getGeminiClient.
  rewrite Hkey.
  cbv beta iota delta
    [bind ret progress emit setView callGenerateVideos view log].
  rewrite Hsubmit. cbv beta iota delta [await ret].
  match goal with |- context [pollLoop _ _ _ ?j ?op ?w1] =>
    destruct (Hloop fuel j op w1 Hfirst) as (w2 & Hrun & Hcount) end.
  rewrite Hrun. cbn [log] in Hcount.
  rewrite !count_app, !count_single in Hcount. cbn [isPoll] in Hcount.
  split; [reflexivity|].
  change (count isPoll (log w2) = count isPoll l + fuel). lia.
Qed.

Lemma animateLogo_unsettled_while_pending_witness :
  let run :=
    animateLogo (scripted (Resolved pendingOp) [] okDownload) 7 sampleImage
      AR_16_9 ignore bare in
  fst run = Unsettled /\ count isPoll (log (snd run)) = 0 + 7.
Proof.
  apply (@animateLogo_unsettled_while_pending unit
           (scripted (Resolved pendingOp) [] okDownload) ignore sampleImage
           AR_16_9 pendingOp).
  - reflexivity.
  - reflexivity.
  - reflexivity.
  - intros k operation. exists pendingOp. split; [|reflexivity].
    destruct k; reflexivity.
Defined.

(** A run on the host that answers "not done" twice before "done". *)
Lemma animateLogo_polls_each_pending_snapshot_witness :
  exists v evs,
    animateLogo hostTwoPending 2 sampleImage AR_16_9 ignore bare
      = (Returned (lit "blob:video"), {| view := v; log := [] ++ evs |})
    /\ count isPoll evs = 2
    /\ count isSubmit evs = 1
    /\ count isPoll evs + count isSubmit evs = 2 + 1
    /\ count isProgress evs = 2 + 2
    /\ count isFetch evs = 1.
Proof.
  apply (@animateLogo_polls_each_pending_snapshot unit hostTwoPending ignore
           2 sampleImage AR_16_9 bare [pendingOp; pendingOp]
           (doneOp (Some sampleLink)) sampleLink
           {| ok := true; statusText := lit "OK"; blob := Resolved [0; 1; 2]%N |}
           [0; 1; 2]%N).
  - reflexivity.
  - repeat split; repeat constructor.
  - reflexivity.
  - reflexivity.
  - reflexivity.
  - reflexivity.
  - reflexivity.
  - simpl. lia.
Defined.

(** C1 as stated fails: with N = 2 "not done" snapshots (the submission's and
    the first poll's) before the "done" one, the run returns its result after
    2 polling calls, not 3. *)
Lemma animateLogo_two_pending_two_polls :
  let run := animateLogo hostTwoPending 10 sampleImage AR_16_9 ignore bare in
  snapshots hostTwoPending sampleImage AR_16_9 0 [pendingOp; pendingOp]
    (doneOp (Some sampleLink))
  /\ fst run = Returned (lit "blob:video")
  /\ count isPoll (log (snd run)) = 2
  /\ count isPoll (log (snd run)) <> 2 + 1.
Proof.
  split; [repeat split; repeat constructor|].
  vm_compute. repeat split. discriminate.
Qed.

(** A run that ends "done" without a link. *)
Lemma animateLogo_no_link_no_fetch_witness :
  exists v evs,
    animateLogo hostNoLink 0 sampleImage AR_16_9 ignore bare
      = (Threw (ErrorObj animateFailure), {| view := v; log := [] ++ evs |})
    /\ evs = animateTrace sampleImage AR_16_9 []
             ++ [EvProgress completeMessage;
                 EvConsoleError animateLabel (ErrorObj noDownloadLink)]
    /\ count isFetch evs = 0.
Proof.
  apply (@animateLogo_no_link_no_fetch unit hostNoLink ignore 0 sampleImage
           AR_16_9 bare [] (doneOp None)).
  - reflexivity.
  - repeat split; repeat constructor.
  - reflexivity.
  - simpl. lia.
Defined.

(** C4 as stated fails: the caller does not get the "no download link"
    error, it gets the generic message. *)
Lemma animateLogo_no_link_generic_message :
  let run := animateLogo hostNoLink 10 sampleImage AR_16_9 ignore bare in
  Videos.done (doneOp None) = true
  /\ downloadLink (doneOp None) = None
  /\ fst run = Threw (ErrorObj animateFailure)
  /\ fst run <> Threw (ErrorObj noDownloadLink).
Proof. vm_compute. repeat split. discriminate. Qed.

(** A run whose download is refused. *)
Lemma animateLogo_download_refused_witness :
  exists v,
    animateLogo hostForbidden 0 sampleImage AR_16_9 ignore bare
      = (Threw (ErrorObj animateFailure),
         {| view := v;
            log := [] ++ animateTrace sampleImage AR_16_9 []
                   ++ [EvProgress completeMessage;
                       EvFetch (sampleLink ++ lit "&key=" ++ lit "KEY");
                       EvConsoleError animateLabel
                         (ErrorObj (downloadFailed (lit "Forbidden")))] |}).
Proof.
  apply (@animateLogo_download_refused unit hostForbidden ignore 0 sampleImage
           AR_16_9 bare [] (doneOp (Some sampleLink)) sampleLink
           {| ok := false; statusText := lit "Forbidden"; blob := Resolved [] |}).
  - reflexivity.
  - repeat split; repeat constructor.
  - reflexivity.
  - reflexivity.
  - reflexivity.
  - reflexivity.
  - simpl. lia.
Defined.

(** C5 as stated fails: the error the caller gets does not carry the status
    text. *)
Lemma animateLogo_download_refused_generic_message :
  let run := animateLogo hostForbidden 10 sampleImage AR_16_9 ignore bare in
  fst run = Threw (ErrorObj animateFailure)
  /\ includes animateFailure (lit "Forbidden") = false
  /\ fst run <> Threw (ErrorObj (downloadFailed (lit "Forbidden"))).
Proof. vm_compute. repeat split. discriminate. Qed.

(** A run whose submission is rejected with a "not found" error. *)
Lemma animateLogo_replaces_errors_witness :
  exists shown,
    animateLogo hostNotFound 0 sampleImage AR_16_9 ignore bare
      = (Threw (ErrorObj shown),
         {| view := tt;
            log := [EvProgress (lit "Initiating animation sequence...");
                    EvGenerateVideos (videoRequest sampleImage AR_16_9)]
                   ++ [EvConsoleError animateLabel notFoundError] |})
    /\ ((exists before after,
           lit "404 NOT_FOUND: Requested entity was not found. Check the model name."
           = before ++ notFoundPhrase ++ after)
        -> shown = notFoundMessage)
    /\ (~ (exists before after,
             lit "404 NOT_FOUND: Requested entity was not found. Check the model name."
             = before ++ notFoundPhrase ++ after)
        -> shown = animateFailure).
Proof.
  apply (@animateLogo_replaces_errors unit hostNotFound ignore 0 sampleImage
           AR_16_9 bare
           {| view := tt;
              log := [EvProgress (lit "Initiating animation sequence...");
                      EvGenerateVideos (videoRequest sampleImage AR_16_9)] |}
           notFoundError
           (lit "404 NOT_FOUND: Requested entity was not found. Check the model name.")).
  - reflexivity.
  - reflexivity.
Defined.

(** C2 as stated fails: an error whose message contains the phrase is not
    passed on as it is; the caller gets another error, with the fixed text. *)
Lemma animateLogo_not_found_not_verbatim :
  exists w1 message,
    animateLogo_try hostNotFound 10 sampleImage AR_16_9 ignore bare
      = (Threw notFoundError, w1)
    /\ messageText notFoundError = Some message
    /\ includes message notFoundPhrase = true
    /\ fst (animateLogo hostNotFound 10 sampleImage AR_16_9 ignore bare)
       = Threw (ErrorObj notFoundMessage)
    /\ ErrorObj notFoundMessage <> notFoundError.
Proof.
  do 2 eexists. split; [reflexivity|]. split; [reflexivity|].
  vm_compute. repeat split. discriminate.
Qed.

End AnimateClaims.

(** ** The view state machine *)
Module AppFacts.
Import GeminiService ServiceFacts App.

(** [generateLogoImage] does not look at the view or at the log: its outcome
    and the events it adds depend on the host and the prompt only. *)
Lemma generateLogoImage_run (host : Host) (text : jsstring) :
  exists outcome evs,
    Forall squareRequest evs /\
    forall S (w : World S),
      generateLogoImage host text w
      = (outcome, {| view := view w; log := log w ++ evs |}).
Proof.
  unfold generateLogoImage, generateLogoImage_try, getGeminiClient,
    callGenerateImages, consoleError.
  destruct (truthy (API_KEY host));
    [destruct (generateImages host (imageRequest text)) as [resp|e] eqn:E;
     [destruct (Images.generatedImages resp) as [[|first rest]|] eqn:G;
      [| destruct (Images.image first) eqn:I |] |] |];
    eexists; eexists;
    (split;
     [| intros S w;
        cbv beta iota delta [tryCatch bind emit await ret throw view log];
        rewrite ?E; cbv beta iota; rewrite ?G; cbv beta iota; rewrite ?I;
        cbv beta iota; rewrite <- ?app_assoc; reflexivity ]);
    repeat constructor.
Qed.

Section Animate.
Variable host : Host.

(** The handler, run on a state that holds an image. *)
Lemma handleAnimateLogo_run fuel (w : World State) c image :
  generatedImage (view w) = Some (c :: image) ->
  handleAnimateLogo host fuel w =
  match animateLogo host fuel (c :: image) (aspectRatio (view w))
          setVideoLoadingMessage
          {| view := setVideoLoadingMessage (lit "Starting animation process...")
                       (setIsGeneratingVideo true (setError None (view w)));
             log := log w |}
  with
  | (Returned videoUrl, w') =>
      (Returned tt,
       {| view := setIsGeneratingVideo false
                    (setGeneratedVideoUrl (Some videoUrl) (view w'));
          log := log w' |})
  | (Threw e, w') =>
      (Returned tt,
       {| view := setIsGeneratingVideo false
                    (setError (Some (shownMessage e))
                       (if saysKeyInvalid e
                        then setApiKeySelected (Some false) (view w')
                        else view w'));
          log := log w' |})
  | (Unsettled, w') => (Unsettled, w')
  end.
Proof.
  intros Himage. unfold handleAnimateLogo.
  cbv beta iota delta [bind getView]. rewrite Himage.
  cbv beta iota delta [bind setView tryFinally tryCatch view log].
  destruct w as [s l]. simpl.
  destruct (animateLogo host fuel (c :: image) (aspectRatio s)
              setVideoLoadingMessage _) as [[url|e|] w'] eqn:E;
    simpl; try reflexivity.
  destruct (saysKeyInvalid e); reflexivity.
Qed.

(** What the [catch] block makes of an error whose text it can take never
    carries the phrase the handler looks for. *)
Lemma saysKeyInvalid_replaced (e : Thrown) (text : jsstring) :
  messageText e = Some text -> saysKeyInvalid (surfaced e) = false.
Proof.
  destruct e as [m|t|raised]; intros [= <-]; cbn [surfaced];
    destruct (includes _ notFoundPhrase); reflexivity.
Qed.

(** A call of [animateLogo] from the handler keeps every field of the view
    but the status message. *)
Lemma animateLogo_keeps_fields fuel image ratio (w : World State) :
  let w' := snd (animateLogo host fuel image ratio setVideoLoadingMessage w) in
  setVideoLoadingMessage [] (view w') = setVideoLoadingMessage [] (view w).
Proof.
  apply (@animateLogo_respects State host
           (fun a b => setVideoLoadingMessage [] (view b)
                       = setVideoLoadingMessage [] (view a))).
  - reflexivity.
  - intros a b c0 H1 H2. now rewrite H2.
  - intros e _ w0. reflexivity.
  - intros message w0. reflexivity.
Qed.

(** The log of a call of [animateLogo] grows by its own events only. *)
Lemma animateLogo_grows fuel image ratio (w : World State) :
  grows (animateEvent image ratio) w
    (snd (animateLogo host fuel image ratio setVideoLoadingMessage w)).
Proof.
  apply (@animateLogo_respects State host (grows (animateEvent image ratio))).
  - apply grows_refl.
  - apply grows_trans.
  - intros e He w0. exists [e]. split; [reflexivity | now constructor].
  - intros message w0. exists []. simpl. now rewrite app_nil_r.
Qed.

(** The credential state after a run of the animate handler is the one it
    started with, however the animation went, with one exception: the state
    is set to "no key" when [animateLogo] logged, last, a thrown value that
    [String] could not convert and the conversion raised an [Error] whose
    message contains "API key is invalid". *)
Lemma handleAnimateLogo_keeps_credential fuel (w : World State) :
  let run := handleAnimateLogo host fuel w in
  apiKeySelected (view (snd run)) = apiKeySelected (view w)
  \/ (apiKeySelected (view (snd run)) = Some false
      /\ exists raised before,
           log (snd run)
           = before ++ [EvConsoleError animateLabel (Unconvertible raised)]
           /\ saysKeyInvalid raised = true).
Proof.
  cbv zeta.
  destruct (generatedImage (view w)) as [[|c image]|] eqn:Himage.
  - left. unfold handleAnimateLogo, bind, getView. now rewrite Himage.
  - rewrite (handleAnimateLogo_run fuel w Himage).
    match goal with |- context [animateLogo host fuel ?i ?r ?cb ?w1] =>
      pose proof (animateLogo_keeps_fields fuel i r w1) as Hk;
      pose proof (@animateLogo_throws State host cb fuel i r w1) as Hthrows;
      destruct (animateLogo host fuel i r cb w1) as [[url|x|] w'] end;
      cbn [fst snd view log] in *;
      apply (f_equal apiKeySelected) in Hk; cbn in Hk.
    + left. exact Hk.
    + destruct (Hthrows x eq_refl) as (e & before & Hlog & ->).
      destruct (saysKeyInvalid (surfaced e)) eqn:Hsays; [|left; exact Hk].
      destruct e as [m|t|raised].
      * now rewrite (@saysKeyInvalid_replaced (ErrorObj m) m eq_refl) in Hsays.
      * now rewrite (@saysKeyInvalid_replaced (NonError t) t eq_refl) in Hsays.
      * right. split; [reflexivity|]. now exists raised, before.
    + left. exact Hk.
  - left. unfold handleAnimateLogo, bind, getView. now rewrite Himage.
Qed.

End Animate.

(** The select-key handler never clears the error: it leaves it as it was or
    replaces it with its own failure message. *)
Lemma handleSelectKey_never_clears (host : Host) (w : World State) :
  let s' := view (snd (handleSelectKey host w)) in
  error s' = error (view w) \/ error s' = Some selectKeyFailure.
Proof.
  unfold handleSelectKey, tryCatch, consoleError.
  destruct (aistudio host) as [studio|].
  - cbv beta iota delta [bind emit setView view log].
    destruct (openSelectKey studio) as [[]|e]; simpl; auto.
  - simpl. auto.
Qed.

End AppFacts.

Module AppClaims.
Import GeminiService ServiceFacts App AppFacts.

(** A call of [generateLogoImage] ends in one of two ways: it returns a PNG
    data URI, or it throws the one fixed generation-failure message. *)
Theorem generateLogoImage_outcomes S (host : Host) (text : jsstring)
  (w : World S) :
  match fst (generateLogoImage host text w) with
  | Returned url => exists bytes, url = lit "data:image/png;base64," ++ bytes
  | Threw e => e = ErrorObj generateFailure
  | Unsettled => False
  end.
Proof.
  unfold generateLogoImage, generateLogoImage_try, getGeminiClient,
    callGenerateImages, consoleError.
  destruct (truthy (API_KEY host));
    [destruct (generateImages host (imageRequest text)) as [resp|e] eqn:E;
     [destruct (Images.generatedImages resp) as [[|first rest]|] eqn:G;
      [| destruct (Images.image first) eqn:I |] |] |];
    cbv beta iota delta [tryCatch bind emit await ret throw view log fst];
    rewrite ?E; cbv beta iota; rewrite ?G; cbv beta iota; rewrite ?I;
    cbv beta iota; try reflexivity.
  eexists. reflexivity.
Qed.

(** C6.  A prompt that is empty or holds white space only (so that it trims
    to the empty string) makes the generate handler return at once: the log
    is as it was, so no remote call was made; the error is the validation
    message; every other field of the view is unchanged. *)
Theorem handleGenerateLogo_blank_prompt (host : Host) (w : World State) :
  forallb isWhiteSpace (prompt (view w)) = true ->
  exists s',
    handleGenerateLogo host w = (Returned tt, {| view := s'; log := log w |})
    /\ error s' = Some promptRequired
    /\ apiKeySelected s' = apiKeySelected (view w)
    /\ prompt s' = prompt (view w)
    /\ aspectRatio s' = aspectRatio (view w)
    /\ generatedImage s' = generatedImage (view w)
    /\ generatedVideoUrl s' = generatedVideoUrl (view w)
    /\ isGeneratingImage s' = isGeneratingImage (view w)
    /\ isGeneratingVideo s' = isGeneratingVideo (view w)
    /\ videoLoadingMessage s' = videoLoadingMessage (view w).
Proof.
  intros Hblank. apply JsFacts.trim_nil_iff in Hblank.
  exists (setError (Some promptRequired) (view w)).
  split; [|repeat split].
  unfold handleGenerateLogo, bind, getView. now rewrite Hblank.
Qed.

Lemma handleGenerateLogo_blank_prompt_witness :
  exists s',
    handleGenerateLogo hostTwoPending (start blankPrompt)
      = (Returned tt, {| view := s'; log := [] |})
    /\ error s' = Some promptRequired
    /\ apiKeySelected s' = Some true
    /\ prompt s' = [32; 9; 160; 10]%N
    /\ aspectRatio s' = AR_16_9
    /\ generatedImage s' = None
    /\ generatedVideoUrl s' = None
    /\ isGeneratingImage s' = false
    /\ isGeneratingVideo s' = false
    /\ videoLoadingMessage s' = [].
Proof.
  apply (handleGenerateLogo_blank_prompt hostTwoPending (start blankPrompt)).
  reflexivity.
Defined.

(** C10.  When no generated image is held (the field is null, or an empty
    string, which is as falsy), the animate handler of either revision of the
    page returns at once and leaves the whole world as it was: no event is
    logged, so no remote call is made, and no field of the view changes, the
    error and the busy flags included. *)
Theorem handleAnimateLogo_without_image (host : Host) (fuel : nat)
  (w : World App.State) (w' : World AppHelp.State) :
  truthy (App.generatedImage (view w)) = false ->
  truthy (AppHelp.generatedImage (view w')) = false ->
  App.handleAnimateLogo host fuel w = (Returned tt, w)
  /\ AppHelp.handleAnimateLogo host fuel w' = (Returned tt, w').
Proof.
  intros H H'. split.
  - unfold App.handleAnimateLogo, bind, getView.
    destruct (App.generatedImage (view w)) as [[|c i]|];
      try discriminate; reflexivity.
  - unfold AppHelp.handleAnimateLogo, bind, getView.
    destruct (AppHelp.generatedImage (view w')) as [[|c i]|];
      try discriminate; reflexivity.
Qed.

Lemma handleAnimateLogo_without_image_witness :
  App.handleAnimateLogo hostTwoPending 5 (start blankPrompt)
    = (Returned tt, start blankPrompt)
  /\ AppHelp.handleAnimateLogo hostTwoPending 5 {| view := helpIdle; log := [] |}
     = (Returned tt, {| view := helpIdle; log := [] |}).
Proof.
  apply (handleAnimateLogo_without_image hostTwoPending 5 (start blankPrompt)
           {| view := helpIdle; log := [] |}); reflexivity.
Defined.

(** Reset, field by field, from any state: it restores the default prompt,
    clears the image, the video and the error, and lowers both busy flags; it
    leaves the credential state, the aspect ratio and the status message as
    they were.  The stage it yields is Idle exactly when a key is selected. *)
Theorem handleReset_restores_defaults (s : State) :
  let s' := handleReset s in
  prompt s' = defaultPrompt
  /\ generatedImage s' = None
  /\ generatedVideoUrl s' = None
  /\ error s' = None
  /\ isGeneratingImage s' = false
  /\ isGeneratingVideo s' = false
  /\ apiKeySelected s' = apiKeySelected s
  /\ aspectRatio s' = aspectRatio s
  /\ videoLoadingMessage s' = videoLoadingMessage s
  /\ (stageOf s' = Idle <-> apiKeySelected s = Some true).
Proof.
  simpl. repeat split; unfold stageOf, renderContent; simpl;
    destruct (apiKeySelected s) as [[|]|]; congruence.
Qed.

(** C7.  Reset is wired to the "Start Over" button alone, which the page
    renders only next to a finished video.  From every state in which it can
    be invoked, reset yields the Idle stage with the default prompt text
    restored, the image and the video cleared, no error, and both busy flags
    down. *)
Theorem handleReset_yields_idle (s : State) :
  available s ClickReset = true ->
  let s' := handleReset s in
  stageOf s' = Idle
  /\ prompt s' = defaultPrompt
  /\ generatedImage s' = None
  /\ generatedVideoUrl s' = None
  /\ error s' = None
  /\ isGeneratingImage s' = false
  /\ isGeneratingVideo s' = false.
Proof.
  unfold available, renderContent. intros Hoffered.
  destruct (apiKeySelected s) as [[|]|] eqn:Hkey; try discriminate.
  cbv zeta. unfold stageOf, renderContent. cbn. rewrite Hkey.
  repeat split.
Qed.

(** Reset from the page that shows a finished video. *)
Lemma handleReset_yields_idle_witness :
  let s' :=
    handleReset (setGeneratedVideoUrl (Some (lit "blob:video")) imageReady) in
  stageOf s' = Idle
  /\ prompt s' = defaultPrompt
  /\ generatedImage s' = None
  /\ generatedVideoUrl s' = None
  /\ error s' = None
  /\ isGeneratingImage s' = false
  /\ isGeneratingVideo s' = false.
Proof.
  apply (handleReset_yields_idle
           (setGeneratedVideoUrl (Some (lit "blob:video")) imageReady)).
  reflexivity.
Defined.

(** C9.  Selecting an aspect ratio leaves the generated image alone; a run of
    the generate handler is the same run whatever ratio is selected, and every
    image request it makes asks for the square ratio "1:1"; a run of the
    animate handler leaves the image alone as well and submits nothing but
    the animation of the held image under the ratio selected when it
    started. *)
Theorem aspectRatio_reaches_animate_only (host : Host) (fuel : nat)
  (ratio : AspectRatio) (w : World State) :
  generatedImage (setAspectRatio ratio (view w)) = generatedImage (view w)
  /\ (let run := handleGenerateLogo host w in
      handleGenerateLogo host
        {| view := setAspectRatio ratio (view w); log := log w |}
      = (fst run,
         {| view := setAspectRatio ratio (view (snd run));
            log := log (snd run) |})
      /\ grows squareRequest w (snd run))
  /\ (let run := handleAnimateLogo host fuel w in
      generatedImage (view (snd run)) = generatedImage (view w)
      /\ grows (animateEvent (capturedImage (view w)) (aspectRatio (view w)))
           w (snd run)).
Proof.
  split; [reflexivity|]. split.
  - destruct w as [s l].
    unfold handleGenerateLogo. cbv beta iota delta [bind getView view log].
    change (prompt (setAspectRatio ratio s)) with (prompt s).
    destruct (trim (prompt s)) as [|c rest].
    + split; [reflexivity|]. exists []. simpl. now rewrite app_nil_r.
    + destruct (generateLogoImage_run host (prompt s))
        as (outcome & evs & Hsquare & Hrun).
      cbv beta iota delta [bind setView tryFinally tryCatch view log].
      rewrite !Hrun.
      destruct outcome; simpl; (split; [reflexivity|]);
        exists evs; now split.
  - destruct (generatedImage (view w)) as [[|c image]|] eqn:Himage;
      try (unfold handleAnimateLogo, bind, getView; rewrite Himage; simpl;
           split; [exact Himage | apply grows_refl]).
    cbv zeta. rewrite (handleAnimateLogo_run host fuel w Himage).
    unfold capturedImage. rewrite Himage.
    match goal with |- context [animateLogo host fuel ?i ?r ?cb ?w1] =>
      pose proof (animateLogo_keeps_fields host fuel i r w1) as Hk;
      pose proof (animateLogo_grows host fuel i r w1) as Hg;
      destruct (animateLogo host fuel i r cb w1) as [[url|e|] w2] end;
      try destruct (saysKeyInvalid e);
      simpl in *; (split;
        [apply (f_equal generatedImage) in Hk; simpl in Hk; congruence
        | exact Hg]).
Qed.

(** C3, on a failing run.  The submission is rejected with the message
    "API key is invalid" while a key is selected: [animateLogo] replaces the
    error with its generic message, so the handler's test for that phrase does
    not fire, and the run ends in ImageReady with the generic error shown and
    the key still marked as selected. *)
Lemma handleAnimateLogo_invalid_key_stays_selected :
  let run := handleAnimateLogo hostInvalidKey 10 (start imageReady) in
  generateVideos hostInvalidKey (videoRequest sampleImage AR_9_16)
    = Rejected (ErrorObj invalidKeyPhrase)
  /\ fst run = Returned tt
  /\ apiKeySelected (view (snd run)) = Some true
  /\ error (view (snd run)) = Some animateFailure
  /\ stageOf (view (snd run)) = ImageReady.
Proof. vm_compute. repeat split. Qed.

(** C8, on a failing run.  Without a key, a first click on "Select API Key"
    fails (the page has no [window.aistudio]) and sets the error; a second
    click succeeds and marks the key as selected, yet the error of the first
    is still set: the handler does not clear it. *)
Lemma handleSelectKey_keeps_old_error :
  let s0 := setApiKeySelected (Some false) initialState in
  let s1 :=
    view (snd (handleSelectKey (withoutStudio hostTwoPending) (start s0))) in
  let s2 := view (snd (handleSelectKey hostTwoPending (start s1))) in
  stageOf s0 = NoCredential
  /\ error s1 = Some selectKeyFailure
  /\ apiKeySelected s2 = Some true
  /\ error s2 = Some selectKeyFailure
  /\ stageOf s2 = Idle.
Proof. vm_compute. repeat split. Qed.

End AppClaims.

(** ** The polling loop, turn by turn *)
Module LoopFacts.
Import GeminiService ServiceFacts.

Lemma pollTrace_app i before after :
  pollTrace i (before ++ after)
  = pollTrace i before ++ pollTrace (i + length before) after.
Proof.
  revert i. induction before as [|op rest IH]; intros i; simpl.
  - now rewrite Nat.add_0_r.
  - rewrite IH. now rewrite Nat.add_succ_r.
Qed.

Lemma progressOf_app a b : progressOf (a ++ b) = progressOf a ++ progressOf b.
Proof.
  induction a as [|e a IH]; simpl; [reflexivity|].
  destruct e; simpl; now rewrite IH.
Qed.

Lemma polledWith_app a b : polledWith (a ++ b) = polledWith a ++ polledWith b.
Proof.
  induction a as [|e a IH]; simpl; [reflexivity|].
  destruct e; simpl; now rewrite IH.
Qed.

Lemma progressOf_pollTrace i pending :
  progressOf (pollTrace i pending) = map loopMessage (seq i (length pending)).
Proof.
  revert i. induction pending as [|op rest IH]; intros i; simpl.
  - reflexivity.
  - now rewrite IH.
Qed.

Lemma polledWith_pollTrace i pending :
  polledWith (pollTrace i pending) = pending.
Proof.
  revert i. induction pending as [|op rest IH]; intros i; simpl.
  - reflexivity.
  - now rewrite IH.
Qed.

Lemma pausesEightSeconds_pollTrace i pending :
  Forall pausesEightSeconds (pollTrace i pending).
Proof.
  revert i. induction pending as [|op rest IH]; intros i; simpl.
  - constructor.
  - repeat constructor. apply IH.
Qed.

Section Loop.
Variable S : Type.
Variable host : Host.
Variable updateLoadingMessage : jsstring -> S -> S.

(** One turn on a snapshot that says "not done". *)
Lemma pollLoop_turn fuel i operation v l :
  Videos.done operation = false ->
  pollLoop host (Datatypes.S fuel) updateLoadingMessage i operation
    {| view := v; log := l |}
  = match getVideosOperation host (count isPoll l) operation with
    | Resolved next =>
        pollLoop host fuel updateLoadingMessage (Datatypes.S i) next
          {| view := updateLoadingMessage (loopMessage i) v;
             log := l ++ pollTrace i [operation] |}
    | Rejected e =>
        (Threw e,
         {| view := updateLoadingMessage (loopMessage i) v;
            log := l ++ pollTrace i [operation] |})
    end.
Proof.
  intros Hpending. rewrite pollLoop_unfold, Hpending.
  cbv beta iota delta
    [bind progress emit setView sleep callGetVideosOperation view log].
  rewrite !count_app, !count_single. cbn [isPoll]. rewrite !Nat.add_0_r.
  unfold loopMessage. simpl pollTrace. rewrite <- !app_assoc. simpl app.
  destruct (getVideosOperation host (count isPoll l) operation); reflexivity.
Qed.

(** The loop over answered polls: after them it stands at the snapshot the
    last of them returned. *)
Lemma pollLoop_unroll before last :
  Forall (fun operation => Videos.done operation = false) before ->
  forall fuel i (w : World S),
    polled host (count isPoll (log w)) before last ->
    length before <= fuel ->
    exists v,
      pollLoop host fuel updateLoadingMessage i (hd last before) w
      = pollLoop host (fuel - length before) updateLoadingMessage
          (i + length before) last
          {| view := v; log := log w ++ pollTrace i before |}.
Proof.
  induction 1 as [|op rest Hop _ IH]; intros fuel i w Hpolled Hfuel.
  - exists (view w). simpl. rewrite Nat.sub_0_r, Nat.add_0_r, app_nil_r.
    now destruct w.
  - destruct fuel as [|fuel]; [simpl in Hfuel; lia|].
    destruct Hpolled as [Hanswer Hrest]. destruct w as [v0 l].
    simpl in Hanswer, Hrest, Hfuel.
    change (hd last (op :: rest)) with op.
    rewrite pollLoop_turn by exact Hop. rewrite Hanswer.
    match goal with |- context [pollLoop _ _ _ _ _ ?w1] =>
      destruct (IH fuel (Datatypes.S i) w1) as [v Hv] end.
    + simpl. rewrite count_app. simpl pollTrace.
      rewrite !count_cons. cbn [isPoll]. unfold count at 2. simpl.
      now rewrite Nat.add_1_r.
    + lia.
    + exists v. rewrite Hv. simpl. rewrite <- app_assoc, Nat.add_succ_r.
      reflexivity.
Qed.

(** Any run of the loop: it polled some snapshots in turn, none of them
    "done", and then returned a "done" snapshot, threw what the last poll was
    rejected with, or used up its fuel. *)
Lemma pollLoop_trace fuel :
  forall i operation (w : World S),
  exists ops v,
    snd (pollLoop host fuel updateLoadingMessage i operation w)
      = {| view := v; log := log w ++ pollTrace i ops |}
    /\ length ops <= fuel
    /\ Forall (fun op => Videos.done op = false) ops
    /\ match fst (pollLoop host fuel updateLoadingMessage i operation w) with
       | Returned final => Videos.done final = true
       | Threw _ => ops <> []
       | Unsettled => length ops = fuel
       end.
Proof.
  induction fuel as [|fuel IH]; intros i op [v0 l].
  - exists [], v0. rewrite pollLoop_unfold.
    destruct (Videos.done op) eqn:Hdone; simpl; rewrite app_nil_r; auto.
  - destruct (Videos.done op) eqn:Hdone.
    + exists [], v0. rewrite pollLoop_unfold, Hdone. simpl.
      rewrite app_nil_r. repeat split; auto. lia.
    + rewrite pollLoop_turn by exact Hdone.
      destruct (getVideosOperation host (count isPoll l) op) as [next|e].
      * match goal with |- context [pollLoop _ _ _ ?j ?o ?w1] =>
          destruct (IH j o w1) as (ops & v & Hsnd & Hlen & Hall & Hout) end.
        exists (op :: ops), v. rewrite Hsnd. simpl log.
        rewrite <- app_assoc. repeat split.
        -- simpl. lia.
        -- now constructor.
        -- destruct (fst _); auto; [discriminate | simpl; lia].
      * exists [op]. eexists. simpl. repeat split; auto.
        -- lia.
        -- discriminate.
Qed.

(** The end of the [try] block: the progress message, then no fetch and the
    "no link" error, or one fetch and its result. *)
Lemma fetchVideo_cases operation (w : World S) :
  exists tail,
    snd (fetchVideo host updateLoadingMessage operation w)
      = {| view := updateLoadingMessage completeMessage (view w);
           log := log w ++ EvProgress completeMessage :: tail |}
    /\ ((tail = []
         /\ fst (fetchVideo host updateLoadingMessage operation w)
            = Threw (ErrorObj noDownloadLink))
        \/ (exists url,
              tail = [EvFetch url]
              /\ fst (fetchVideo host updateLoadingMessage operation w)
                 <> Unsettled)).
Proof.
  unfold fetchVideo.
  cbv beta iota delta [bind progress emit setView view log].
  destruct w as [v l].
  destruct (truthy (downloadLink operation)).
  - cbv beta iota delta [negb callFetch bind emit view log].
    destruct (fetch host _) as [resp|e]; cbv beta iota delta [await ret throw].
    + destruct (ok resp); cbv beta iota delta [negb bind throw].
      * destruct (blob resp); cbv beta iota delta [await ret throw];
          (eexists; split; [simpl; rewrite <- app_assoc; reflexivity|];
           right; eexists; split; [reflexivity | discriminate]).
      * eexists; split; [simpl; rewrite <- app_assoc; reflexivity|].
        right; eexists; split; [reflexivity | discriminate].
    + eexists; split; [simpl; rewrite <- app_assoc; reflexivity|].
      right; eexists; split; [reflexivity | discriminate].
  - exists []. split; [reflexivity|]. left. split; reflexivity.
Qed.

(** The log of any call of [animateLogo] has one of six shapes. *)
Lemma animateLogo_cases fuel imageBase64 aspectRatio (w : World S) :
  let run :=
    animateLogo host fuel imageBase64 aspectRatio updateLoadingMessage w in
  exists evs,
    log (snd run) = log w ++ evs
    /\ ((truthy (API_KEY host) = false
         /\ (exists e, evs = [EvConsoleError animateLabel e])
         /\ fst run = Threw (ErrorObj animateFailure))
        \/ (truthy (API_KEY host) = true
            /\ exists ops tail,
                 evs = animateTrace imageBase64 aspectRatio ops ++ tail
                 /\ length ops <= fuel
                 /\ Forall (fun op => Videos.done op = false) ops
                 /\ ((tail = [] /\ fst run = Unsettled /\ length ops = fuel)
                     \/ (exists e x,
                           tail = [EvConsoleError animateLabel e]
                           /\ fst run = Threw x)
                     \/ (exists e x,
                           tail = [EvProgress completeMessage;
                                   EvConsoleError animateLabel e]
                           /\ fst run = Threw x)
                     \/ (exists url e x,
                           tail = [EvProgress completeMessage; EvFetch url;
                                   EvConsoleError animateLabel e]
                           /\ fst run = Threw x)
                     \/ (exists url result,
                           tail = [EvProgress completeMessage; EvFetch url]
                           /\ fst run = Returned result)))).
Proof.
  cbv zeta. destruct w as [v0 l].
  unfold animateLogo, tryCatch, animateLogo_try, getGeminiClient.
  destruct (truthy (API_KEY host)) eqn:Hkey.
  - cbv beta iota delta
      [bind ret progress emit setView callGenerateVideos view log].
    destruct (generateVideos host _) as [first|e];
      cbv beta iota delta [await ret throw].
    + match goal with |- context [pollLoop _ _ _ ?j ?o ?w1] =>
        destruct (pollLoop_trace fuel j o w1)
          as (ops & v & Hsnd & Hlen & Hall & Hout);
        destruct (pollLoop host fuel updateLoadingMessage j o w1)
          as [[final|e|] w2] end;
        simpl in Hsnd, Hout; subst w2.
      * destruct (fetchVideo_cases final
                    {| view := v;
                       log := ((l ++ [EvProgress
                                        (lit "Initiating animation sequence...")])
                               ++ [EvGenerateVideos
                                     (videoRequest imageBase64 aspectRatio)])
                              ++ pollTrace 0 ops |})
          as (tail & Hsnd & Htail).
        destruct (fetchVideo host updateLoadingMessage final _)
          as [[result|e|] w3]; simpl in Hsnd, Htail; subst w3.
        -- destruct Htail as [[_ Habs]|(url & -> & _)]; [discriminate|].
           eexists. split; [|right; split; [reflexivity|]; exists ops;
             eexists; split; [reflexivity|]; repeat split; auto;
             right; right; right; right; do 2 eexists; split; reflexivity].
           simpl. unfold animateTrace. rewrite <- !app_assoc. reflexivity.
        -- rewrite animateLogo_catch_run. simpl.
           destruct Htail as [[-> _]|(url & -> & _)].
           ++ eexists. split; [|right; split; [reflexivity|]; exists ops;
                eexists; split; [reflexivity|]; repeat split; auto;
                right; right; left; do 2 eexists; split; reflexivity].
              unfold animateTrace. rewrite <- !app_assoc. reflexivity.
           ++ eexists. split; [|right; split; [reflexivity|]; exists ops;
                eexists; split; [reflexivity|]; repeat split; auto;
                right; right; right; left; do 3 eexists; split; reflexivity].
              unfold animateTrace. rewrite <- !app_assoc. reflexivity.
        -- destruct Htail as [[_ Habs]|(url & _ & Habs)];
             [discriminate | now contradiction Habs].
      * rewrite animateLogo_catch_run. simpl.
        eexists. split; [|right; split; [reflexivity|]; exists ops;
          eexists; split; [reflexivity|]; repeat split; auto;
          right; left; do 2 eexists; split; reflexivity].
        unfold animateTrace. rewrite <- !app_assoc. reflexivity.
      * eexists. split; [|right; split; [reflexivity|]; exists ops;
          exists []; split; [reflexivity|]; repeat split; auto].
        simpl. unfold animateTrace. rewrite <- !app_assoc, app_nil_r.
        reflexivity.
    + rewrite animateLogo_catch_run. simpl.
      eexists. split; [|right; split; [reflexivity|]; exists [];
        eexists; split; [reflexivity|]; split; [simpl; lia|];
        split; [constructor|];
        right; left; do 2 eexists; split; reflexivity].
      unfold animateTrace. rewrite <- !app_assoc. reflexivity.
  - cbv beta iota delta [bind throw]. rewrite animateLogo_catch_run. simpl.
    eexists. split; [reflexivity|]. left. repeat split.
    eexists. reflexivity.
Qed.

End Loop.
End LoopFacts.

(** ** Every run of the animation service *)
Module OrchestratorProps.
Import GeminiService ServiceFacts LoopFacts.

Lemma pollTrace_census (p : Event -> bool) (a b c : bool) ops :
  (forall m, p (EvProgress m) = a) ->
  (forall ms, p (EvSleep ms) = b) ->
  (forall op, p (EvGetVideosOperation op) = c) ->
  forall i,
    count p (pollTrace i ops)
    = length ops * ((if a then 1 else 0) + (if b then 1 else 0)
                    + (if c then 1 else 0)).
Proof.
  intros Ha Hb Hc. induction ops as [|op rest IH]; intros i; simpl pollTrace.
  - reflexivity.
  - rewrite !count_cons, Ha, Hb, Hc, IH. simpl length.
    destruct a, b, c; lia.
Qed.

Local Ltac census :=
  unfold animateTrace;
  rewrite ?count_app, ?count_cons;
  repeat match goal with
  | |- context [count ?p (pollTrace ?i ?ops)] =>
      rewrite (@pollTrace_census p (p (EvProgress [])) (p (EvSleep 0))
                 (p (EvGetVideosOperation pendingOp)) ops)
        by reflexivity
  end;
  cbn [isSubmit isFetch isPoll isSleep isProgress isImageCall];
  unfold count; cbn [filter length isSubmit isFetch isPoll isSleep isProgress
                       isImageCall];
  try lia.

(** A call without a key in the environment.  Both services fail with their
    fixed message before they do anything that can be seen from outside: no
    remote call is made, no progress message is sent, the view is as it was;
    the cause is only logged. *)
Theorem services_need_key S (host : Host)
  (updateLoadingMessage : jsstring -> S -> S) fuel imageBase64 aspectRatio
  text (w : World S) :
  truthy (API_KEY host) = false ->
  animateLogo host fuel imageBase64 aspectRatio updateLoadingMessage w
    = (Threw (ErrorObj animateFailure),
       {| view := view w;
          log := log w
                 ++ [EvConsoleError animateLabel
                       (ErrorObj (lit "API_KEY environment variable not set"))] |})
  /\ generateLogoImage host text w
     = (Threw (ErrorObj generateFailure),
        {| view := view w;
           log := log w
                  ++ [EvConsoleError (lit "Error generating logo image:")
                        (ErrorObj (lit "API_KEY environment variable not set"))] |}).
Proof.
  intros Hkey. split.
  - unfold animateLogo, tryCatch, animateLogo_try, getGeminiClient.
    rewrite Hkey. cbv beta iota delta [bind throw].
    now rewrite animateLogo_catch_run.
  - unfold generateLogoImage, tryCatch, generateLogoImage_try, getGeminiClient.
    rewrite Hkey. reflexivity.
Qed.

Lemma services_need_key_witness :
  animateLogo (withoutKey hostTwoPending) 5 sampleImage AR_16_9 ignore bare
    = (Threw (ErrorObj animateFailure),
       {| view := tt;
          log := [] ++ [EvConsoleError animateLabel
                          (ErrorObj (lit "API_KEY environment variable not set"))] |})
  /\ generateLogoImage (withoutKey hostTwoPending) (lit "a fox") bare
     = (Threw (ErrorObj generateFailure),
        {| view := tt;
           log := [] ++ [EvConsoleError (lit "Error generating logo image:")
                           (ErrorObj (lit "API_KEY environment variable not set"))] |}).
Proof.
  apply (@services_need_key unit (withoutKey hostTwoPending) ignore 5
           sampleImage AR_16_9 (lit "a fox") bare).
  reflexivity.
Defined.

(** Whatever the host answers and however the call ends, one call of
    [animateLogo] submits at most one animation job and fetches at most one
    video, the fetch never without the submission; it never asks for an image;
    and when it returns a result it has made exactly one submission and
    exactly one fetch. *)
Theorem animateLogo_submits_and_fetches_once S (host : Host)
  (updateLoadingMessage : jsstring -> S -> S) fuel imageBase64 aspectRatio
  (w : World S) :
  let run :=
    animateLogo host fuel imageBase64 aspectRatio updateLoadingMessage w in
  exists evs,
    log (snd run) = log w ++ evs
    /\ count isSubmit evs <= 1
    /\ count isFetch evs <= count isSubmit evs
    /\ count isImageCall evs = 0
    /\ match fst run with
       | Returned _ => count isSubmit evs = 1 /\ count isFetch evs = 1
       | _ => True
       end.
Proof.
  cbv zeta.
  destruct (animateLogo_cases host updateLoadingMessage fuel imageBase64
              aspectRatio w) as (evs & Hlog & Hshape).
  exists evs. split; [exact Hlog|].
  destruct Hshape as [(_ & [e ->] & ->)
                     |(_ & ops & tail & -> & _ & _ & Htail)].
  - repeat split; census.
  - destruct Htail as [(-> & -> & _)
                      |[(e & x & -> & ->)
                      |[(e & x & -> & ->)
                      |[(url & e & x & -> & ->)
                      |(url & result & -> & ->)]]]];
      repeat split; census.
Qed.

(** The pacing of the loop, in every run: there is one pause per poll, every
    pause lasts 8000 ms, a poll only ever sends back a snapshot that says
    "not done", and no poll goes out without a progress message before it. *)
Theorem animateLogo_pauses_before_each_poll S (host : Host)
  (updateLoadingMessage : jsstring -> S -> S) fuel imageBase64 aspectRatio
  (w : World S) :
  let run :=
    animateLogo host fuel imageBase64 aspectRatio updateLoadingMessage w in
  exists evs,
    log (snd run) = log w ++ evs
    /\ count isSleep evs = count isPoll evs
    /\ Forall pausesEightSeconds evs
    /\ Forall (fun op => Videos.done op = false) (polledWith evs)
    /\ count isPoll evs <= count isProgress evs.
Proof.
  cbv zeta.
  destruct (animateLogo_cases host updateLoadingMessage fuel imageBase64
              aspectRatio w) as (evs & Hlog & Hshape).
  exists evs. split; [exact Hlog|].
  destruct Hshape as [(_ & [e ->] & _)
                     |(_ & ops & tail & -> & _ & Hall & Htail)].
  - repeat split; census; repeat constructor.
  - assert (Hpaused : forall t,
               Forall pausesEightSeconds t ->
               Forall pausesEightSeconds
                 (animateTrace imageBase64 aspectRatio ops ++ t)).
    { intros t Ht. unfold animateTrace. apply Forall_app. split; [|exact Ht].
      repeat constructor. apply pausesEightSeconds_pollTrace. }
    assert (Hsent : forall t,
               polledWith t = [] ->
               polledWith (animateTrace imageBase64 aspectRatio ops ++ t)
               = ops).
    { intros t Ht. unfold animateTrace. rewrite polledWith_app, Ht. simpl.
      now rewrite polledWith_pollTrace, app_nil_r. }
    destruct Htail as [(-> & _ & _)
                      |[(e & x & -> & _)
                      |[(e & x & -> & _)
                      |[(url & e & x & -> & _)
                      |(url & result & -> & _)]]]];
      (split; [census|]);
      (split; [apply Hpaused; repeat constructor|]);
      (split; [rewrite Hsent by reflexivity; exact Hall|]);
      census.
Qed.

Lemma loopMessage_cycle i : loopMessage (i + 6) = loopMessage i.
Proof.
  unfold loopMessage. change (length loadingMessages) with 6.
  replace (i + 6) with (i + 1 * 6) by lia.
  now rewrite Nat.Div0.mod_add.
Qed.

(** The progress messages of any run come in one order: none at all (no
    key), or "Initiating animation sequence...", then one loop message per
    poll, taken from the six status texts in turn and starting over after the
    sixth, then, once the loop has ended with a "done" snapshot, "Animation
    complete! Fetching video...".  A run that returns has sent them all. *)
Theorem animateLogo_progress_in_order S (host : Host)
  (updateLoadingMessage : jsstring -> S -> S) fuel imageBase64 aspectRatio
  (w : World S) :
  let run :=
    animateLogo host fuel imageBase64 aspectRatio updateLoadingMessage w in
  let loop n := map loopMessage (seq 0 n) in
  exists evs,
    log (snd run) = log w ++ evs
    /\ (progressOf evs = []
        \/ progressOf evs
           = lit "Initiating animation sequence..." :: loop (count isPoll evs)
        \/ progressOf evs
           = lit "Initiating animation sequence..." :: loop (count isPoll evs)
             ++ [completeMessage])
    /\ match fst run with
       | Returned _ =>
           progressOf evs
           = lit "Initiating animation sequence..." :: loop (count isPoll evs)
             ++ [completeMessage]
       | _ => True
       end
    /\ loop 6 = loadingMessages
    /\ forall i, loopMessage (i + 6) = loopMessage i.
Proof.
  cbv zeta.
  destruct (animateLogo_cases host updateLoadingMessage fuel imageBase64
              aspectRatio w) as (evs & Hlog & Hshape).
  exists evs. split; [exact Hlog|].
  assert (Hpolls : forall ops t,
             count isPoll t = 0 ->
             count isPoll (animateTrace imageBase64 aspectRatio ops ++ t)
             = length ops).
  { intros ops t Ht. rewrite count_app, Ht. census. }
  assert (Hprogress : forall ops t,
             progressOf (animateTrace imageBase64 aspectRatio ops ++ t)
             = lit "Initiating animation sequence..."
               :: map loopMessage (seq 0 (length ops)) ++ progressOf t).
  { intros ops t. unfold animateTrace. rewrite progressOf_app. simpl.
    now rewrite progressOf_pollTrace. }
  split; [|split; [|split; [reflexivity | apply loopMessage_cycle]]].
  - destruct Hshape as [(_ & [e ->] & _)
                       |(_ & ops & tail & -> & _ & _ & Htail)];
      [left; reflexivity|].
    destruct Htail as [(-> & _ & _)
                      |[(e & x & -> & _)
                      |[(e & x & -> & _)
                      |[(url & e & x & -> & _)
                      |(url & result & -> & _)]]]];
      rewrite Hprogress, Hpolls by reflexivity; simpl progressOf;
      rewrite ?app_nil_r; auto.
  - destruct Hshape as [(_ & _ & ->)
                       |(_ & ops & tail & -> & _ & _ & Htail)]; [exact I|].
    destruct Htail as [(-> & -> & _)
                      |[(e & x & -> & ->)
                      |[(e & x & -> & ->)
                      |[(url & e & x & -> & ->)
                      |(url & result & -> & ->)]]]]; try exact I.
    now rewrite Hprogress, Hpolls by reflexivity.
Qed.

(** Nothing is retried.  When the polls sent with the snapshots of [before]
    are answered in turn and the poll sent with the next snapshot, [last], is
    rejected, the call ends there by throwing: the error the poll was rejected
    with is logged, and the log shows no further poll, no "complete" message
    and no fetch. *)
Theorem animateLogo_poll_rejected_stops S (host : Host)
  (updateLoadingMessage : jsstring -> S -> S) fuel imageBase64 aspectRatio
  (w : World S) before last e :
  truthy (API_KEY host) = true ->
  generateVideos host (videoRequest imageBase64 aspectRatio)
    = Resolved (hd last before) ->
  Forall (fun op => Videos.done op = false) (before ++ [last]) ->
  polled host (count isPoll (log w)) before last ->
  getVideosOperation host (count isPoll (log w) + length before) last
    = Rejected e ->
  length before < fuel ->
  exists v x,
    animateLogo host fuel imageBase64 aspectRatio updateLoadingMessage w
    = (Threw x,
       {| view := v;
          log := log w
                 ++ animateTrace imageBase64 aspectRatio (before ++ [last])
                 ++ [EvConsoleError animateLabel e] |}).
Proof.
  intros Hkey Hsubmit Hall Hpolled Hreject Hfuel.
  apply Forall_app in Hall as [Hbefore Hlast].
  apply Forall_inv in Hlast.
  destruct w as [v0 l]. simpl in Hpolled, Hreject.
  unfold animateLogo, tryCatch, animateLogo_try, getGeminiClient.
  rewrite Hkey.
  cbv beta iota delta
    [bind ret progress emit setView callGenerateVideos view log].
  rewrite Hsubmit. cbv beta iota delta [await ret].
  match goal with |- context [pollLoop _ _ _ ?j (hd last before) ?w1] =>
    destruct (@pollLoop_unroll S host updateLoadingMessage before last
                Hbefore fuel j w1) as [v Hv] end.
  - simpl. rewrite !count_app, !count_single. cbn [isPoll].
    now rewrite !Nat.add_0_r.
  - lia.
  - rewrite Hv.
    destruct (fuel - length before) as [|rest] eqn:Hrest; [lia|].
    rewrite pollLoop_turn by exact Hlast.
    cbn [log]. rewrite !count_app, !count_single. cbn [isPoll].
    rewrite (@pollTrace_census isPoll false false true before)
      by reflexivity.
    replace (count isPoll l + 0 + 0 + length before * (0 + 0 + 1))
      with (count isPoll l + length before) by lia.
    rewrite Hreject, animateLogo_catch_run.
    eexists. exists (surfaced e). cbn [view log]. unfold animateTrace.
    rewrite pollTrace_app. cbn [Nat.add app]. rewrite <- !app_assoc.
    cbn [app]. reflexivity.
Qed.

Lemma animateLogo_poll_rejected_stops_witness :
  let host :=
    scripted (Resolved pendingOp)
      [Resolved pendingOp; Rejected (ErrorObj (lit "503 unavailable"));
       Resolved (doneOp (Some sampleLink))] okDownload in
  exists v x,
    animateLogo host 9 sampleImage AR_16_9 ignore bare
    = (Threw x,
       {| view := v;
          log := [] ++ animateTrace sampleImage AR_16_9
                         ([pendingOp] ++ [pendingOp])
                 ++ [EvConsoleError animateLabel
                       (ErrorObj (lit "503 unavailable"))] |}).
Proof.
  apply (@animateLogo_poll_rejected_stops unit
           (scripted (Resolved pendingOp)
              [Resolved pendingOp; Rejected (ErrorObj (lit "503 unavailable"));
               Resolved (doneOp (Some sampleLink))] okDownload)
           ignore 9 sampleImage AR_16_9 bare [pendingOp] pendingOp
           (ErrorObj (lit "503 unavailable"))).
  - reflexivity.
  - reflexivity.
  - repeat constructor.
  - repeat split.
  - reflexivity.
  - simpl. lia.
Defined.

(** A successful run, event by event.  When the submission and the polls
    yield the snapshots [pending ++ [final]] and the download succeeds, the
    log gains exactly: the first progress message, the submission, then for
    each snapshot of [pending] a loop message, a pause of 8000 ms and a poll
    that sends that very snapshot back, then the last progress message and
    one fetch of the result link with ["&key="] and the key appended. *)
Theorem animateLogo_success_log S (host : Host)
  (updateLoadingMessage : jsstring -> S -> S) fuel imageBase64 aspectRatio
  (w : World S) pending final link resp data :
  truthy (API_KEY host) = true ->
  snapshots host imageBase64 aspectRatio (count isPoll (log w)) pending final ->
  downloadLink final = Some link ->
  truthy (Some link) = true ->
  fetch host (link ++ lit "&key=" ++ template (API_KEY host)) = Resolved resp ->
  ok resp = true ->
  blob resp = Resolved data ->
  length pending <= fuel ->
  exists v evs,
    animateLogo host fuel imageBase64 aspectRatio updateLoadingMessage w
      = (Returned (createObjectURL host data),
         {| view := v; log := log w ++ evs |})
    /\ evs = EvProgress (lit "Initiating animation sequence...")
             :: EvGenerateVideos (videoRequest imageBase64 aspectRatio)
             :: pollTrace 0 pending
             ++ [EvProgress completeMessage;
                 EvFetch (link ++ lit "&key=" ++ template (API_KEY host))]
    /\ polledWith evs = pending.
Proof.
  intros Hkey Hsnap Hlink Htruthy Hfetch Hok Hblob Hfuel.
  destruct (@animateLogo_try_reaches S host updateLoadingMessage fuel
              imageBase64 aspectRatio pending final w Hkey Hsnap Hfuel)
    as [v Hrun].
  eexists. eexists. split; [|split; [reflexivity|]].
  - unfold animateLogo, tryCatch. rewrite Hrun.
    rewrite (@fetchVideo_answered S host updateLoadingMessage final link resp
               _ Hlink Htruthy Hfetch), Hok, Hblob.
    cbn [view log]. unfold animateTrace. rewrite <- !app_assoc. reflexivity.
  - simpl. rewrite polledWith_app, polledWith_pollTrace. simpl.
    now rewrite app_nil_r.
Qed.

Lemma animateLogo_success_log_witness :
  exists v evs,
    animateLogo hostTwoPending 2 sampleImage AR_9_16 ignore bare
      = (Returned (lit "blob:video"), {| view := v; log := [] ++ evs |})
    /\ evs = EvProgress (lit "Initiating animation sequence...")
             :: EvGenerateVideos (videoRequest sampleImage AR_9_16)
             :: pollTrace 0 [pendingOp; pendingOp]
             ++ [EvProgress completeMessage;
                 EvFetch (sampleLink ++ lit "&key=" ++ lit "KEY")]
    /\ polledWith evs = [pendingOp; pendingOp].
Proof.
  apply (@animateLogo_success_log unit hostTwoPending ignore 2 sampleImage
           AR_9_16 bare [pendingOp; pendingOp] (doneOp (Some sampleLink))
           sampleLink
           {| ok := true; statusText := lit "OK"; blob := Resolved [0; 1; 2]%N |}
           [0; 1; 2]%N).
  - reflexivity.
  - repeat split; repeat constructor.
  - reflexivity.
  - reflexivity.
  - reflexivity.
  - reflexivity.
  - reflexivity.
  - simpl. lia.
Defined.

End OrchestratorProps.

(** ** The service does not depend on whose view it updates *)
Module Naturality.
Import GeminiService ServiceFacts.

Section Natural.
Variables S T : Type.
Variable f : S -> T.

Lemma natural_ret A (a : A) : natural f (ret a) (ret a).
Proof. intros w. reflexivity. Qed.

Lemma natural_throw A (e : Thrown) : natural f (@throw S A e) (throw e).
Proof. intros w. reflexivity. Qed.

Lemma natural_unsettled A : natural f (@unsettled S A) unsettled.
Proof. intros w. reflexivity. Qed.

Lemma natural_await A (p : Settled A) : natural f (@await S A p) (await p).
Proof. destruct p; intros w; reflexivity. Qed.

Lemma natural_emit (e : Event) : natural f (emit e) (emit e).
Proof. intros w. reflexivity. Qed.

Lemma natural_setView (g : S -> S) (h : T -> T) :
  (forall s, f (g s) = h (f s)) -> natural f (setView g) (setView h).
Proof.
  intros Hgh [s l]. unfold setView, mapWorld. simpl. now rewrite Hgh.
Qed.

Lemma natural_bind A B (m1 : M S A) (m2 : M T A) (k1 : A -> M S B)
  (k2 : A -> M T B) :
  natural f m1 m2 -> (forall a, natural f (k1 a) (k2 a)) ->
  natural f (bind m1 k1) (bind m2 k2).
Proof.
  intros Hm Hk w. unfold bind. rewrite Hm.
  destruct (m1 w) as [[a|e|] w']; simpl; [apply Hk | reflexivity..].
Qed.

Lemma natural_tryCatch A (m1 : M S A) (m2 : M T A) (h1 : Thrown -> M S A)
  (h2 : Thrown -> M T A) :
  natural f m1 m2 -> (forall e, natural f (h1 e) (h2 e)) ->
  natural f (tryCatch m1 h1) (tryCatch m2 h2).
Proof.
  intros Hm Hh w. unfold tryCatch. rewrite Hm.
  destruct (m1 w) as [[a|e|] w']; simpl; [reflexivity | apply Hh | reflexivity].
Qed.

Lemma natural_tryFinally A (m1 : M S A) (m2 : M T A) (f1 : M S unit)
  (f2 : M T unit) :
  natural f m1 m2 -> natural f f1 f2 ->
  natural f (tryFinally m1 f1) (tryFinally m2 f2).
Proof.
  intros Hm Hf w. unfold tryFinally. rewrite Hm.
  destruct (m1 w) as [[a|e|] w']; simpl; try reflexivity;
    rewrite Hf; destruct (f1 w') as [[[]|e'|] w'']; reflexivity.
Qed.

Variable host : Host.
Variable update1 : jsstring -> S -> S.
Variable update2 : jsstring -> T -> T.
Hypothesis update_natural :
  forall message s, f (update1 message s) = update2 message (f s).

Local Ltac nat_step :=
  first [ apply natural_bind; [ | intro ]
        | apply natural_ret
        | apply natural_throw
        | apply natural_unsettled
        | apply natural_await
        | apply natural_emit
        | apply natural_setView; intro; apply update_natural ].

Lemma natural_progress message :
  natural f (progress update1 message) (progress update2 message).
Proof. unfold progress. repeat nat_step. Qed.

Lemma natural_callGetVideosOperation operation :
  natural f (callGetVideosOperation host operation)
    (callGetVideosOperation host operation).
Proof.
  intros w. unfold callGetVideosOperation.
  change (log (mapWorld f w)) with (log w).
  apply natural_bind; [apply natural_emit | intros _; apply natural_await].
Qed.

Lemma natural_pollLoop fuel :
  forall i operation,
    natural f (pollLoop host fuel update1 i operation)
      (pollLoop host fuel update2 i operation).
Proof.
  induction fuel as [|fuel IH]; intros i op; rewrite !pollLoop_unfold;
    destruct (Videos.done op); try (nat_step; fail).
  nat_step; [apply natural_progress|].
  nat_step; [unfold sleep; nat_step|].
  nat_step; [apply natural_callGetVideosOperation|].
  apply IH.
Qed.

(** [animateLogo] called with two callbacks that [f] relates does the same
    thing on both sides. *)
Lemma natural_animateLogo fuel imageBase64 aspectRatio :
  natural f (animateLogo host fuel imageBase64 aspectRatio update1)
    (animateLogo host fuel imageBase64 aspectRatio update2).
Proof.
  unfold animateLogo. apply natural_tryCatch.
  - unfold animateLogo_try.
    nat_step; [unfold getGeminiClient; destruct (truthy _); nat_step|].
    nat_step; [apply natural_progress|].
    nat_step; [unfold callGenerateVideos; repeat nat_step|].
    nat_step; [apply natural_pollLoop|].
    unfold fetchVideo.
    nat_step; [apply natural_progress|].
    destruct (negb _); [nat_step|].
    nat_step; [unfold callFetch; repeat nat_step|].
    destruct (negb _); repeat nat_step.
  - intros e. unfold animateLogo_catch, consoleError.
    nat_step; [nat_step|].
    nat_step; [unfold errorMessageOf; destruct e; nat_step|].
    destruct (includes _ _); nat_step.
Qed.

End Natural.
End Naturality.

(** ** The handlers of the page, run to their end *)
Module PageFacts.
Import GeminiService ServiceFacts App AppFacts LoopFacts.

(** [split] on a separator that occurs once: the second piece is what
    follows it. *)
Lemma split_once (sep : N) (before after : jsstring) :
  forallb (fun c => negb (N.eqb c sep)) before = true ->
  forallb (fun c => negb (N.eqb c sep)) after = true ->
  split sep (before ++ sep :: after) = [before; after].
Proof.
  intros Hbefore Hafter.
  assert (Hplain : split sep after = [after]).
  { clear Hbefore. induction after as [|c rest IH]; [reflexivity|].
    simpl in Hafter. apply andb_true_iff in Hafter as [Hc Hrest].
    simpl. destruct (N.eqb c sep); [discriminate|].
    now rewrite (IH Hrest). }
  induction before as [|c rest IH]; simpl.
  - now rewrite N.eqb_refl, Hplain.
  - simpl in Hbefore. apply andb_true_iff in Hbefore as [Hc Hrest].
    destruct (N.eqb c sep); [discriminate|].
    now rewrite (IH Hrest).
Qed.

(** How a call of [generateLogoImage] ends, and what it logged. *)
Lemma generateLogoImage_cases (host : Host) (text : jsstring) :
  exists outcome evs,
    (forall S (w : World S),
        generateLogoImage host text w
        = (outcome, {| view := view w; log := log w ++ evs |}))
    /\ ((exists e,
           outcome = Threw (ErrorObj generateFailure)
           /\ (evs = [EvConsoleError (lit "Error generating logo image:") e]
               \/ evs = [EvGenerateImages (imageRequest text);
                         EvConsoleError (lit "Error generating logo image:") e]))
        \/ (exists resp first rest img,
              generateImages host (imageRequest text) = Resolved resp
              /\ Images.generatedImages resp = Some (first :: rest)
              /\ Images.image first = Some img
              /\ outcome
                 = Returned (lit "data:image/png;base64,"
                             ++ template (Images.imageBytes img))
              /\ evs = [EvGenerateImages (imageRequest text)])).
Proof.
  unfold generateLogoImage, generateLogoImage_try, getGeminiClient,
    callGenerateImages, consoleError.
  destruct (truthy (API_KEY host));
    [destruct (generateImages host (imageRequest text)) as [resp|e] eqn:E;
     [destruct (Images.generatedImages resp) as [[|first rest]|] eqn:G;
      [| destruct (Images.image first) as [img|] eqn:I |] |] |];
    eexists; eexists;
    (split;
     [ intros S w;
       cbv beta iota delta [tryCatch bind emit await ret throw view log];
       rewrite ?E; cbv beta iota; rewrite ?G; cbv beta iota; rewrite ?I;
       cbv beta iota; rewrite <- ?app_assoc; reflexivity |]);
    try (left; eexists; split; [reflexivity|];
         first [left; reflexivity | right; reflexivity]).
  right. exists resp, first, rest, img. repeat split; auto.
Qed.

(** The generate handler on a prompt that is not blank. *)
Lemma handleGenerateLogo_run (host : Host) (w : World State) outcome evs :
  trim (prompt (view w)) <> [] ->
  (forall S (w0 : World S),
      generateLogoImage host (prompt (view w)) w0
      = (outcome, {| view := view w0; log := log w0 ++ evs |})) ->
  handleGenerateLogo host w
  = (match outcome with Unsettled => Unsettled | _ => Returned tt end,
     {| view :=
          match outcome with
          | Returned imageData =>
              setIsGeneratingImage false
                (setGeneratedImage (Some imageData)
                   (setIsGeneratingImage true (setError None (view w))))
          | Threw e =>
              setIsGeneratingImage false
                (setError (Some (shownMessage e))
                   (setIsGeneratingImage true (setError None (view w))))
          | Unsettled => setIsGeneratingImage true (setError None (view w))
          end;
        log := log w ++ evs |}).
Proof.
  intros Hprompt Hrun. destruct w as [s l]. simpl in Hprompt, Hrun.
  unfold handleGenerateLogo. cbv beta iota delta [bind getView view log].
  destruct (trim (prompt s)) as [|c rest]; [contradiction|].
  cbv beta iota delta [bind setView tryFinally tryCatch view log].
  rewrite Hrun. destruct outcome; reflexivity.
Qed.

Lemma stageOf_Idle_inv (s : State) :
  stageOf s = Idle ->
  apiKeySelected s = Some true
  /\ truthy (generatedVideoUrl s) = false
  /\ truthy (generatedImage s) = false
  /\ isGeneratingImage s = false.
Proof.
  unfold stageOf, renderContent.
  destruct (apiKeySelected s) as [[|]|]; try discriminate.
  destruct (generatedVideoUrl s) as [[|c url]|]; try discriminate;
    (destruct (generatedImage s) as [[|d image]|];
     [| destruct (isGeneratingVideo s); discriminate |]);
    destruct (isGeneratingImage s); try discriminate; auto.
Qed.

Lemma stageOf_ImageReady_inv (s : State) :
  stageOf s = ImageReady ->
  apiKeySelected s = Some true
  /\ truthy (generatedVideoUrl s) = false
  /\ truthy (generatedImage s) = true
  /\ isGeneratingVideo s = false.
Proof.
  unfold stageOf, renderContent.
  destruct (apiKeySelected s) as [[|]|]; try discriminate.
  destruct (generatedVideoUrl s) as [[|c url]|]; try discriminate;
    (destruct (generatedImage s) as [[|d image]|];
     [destruct (isGeneratingImage s); discriminate
     | destruct (isGeneratingVideo s); try discriminate; auto
     | destruct (isGeneratingImage s); discriminate]).
Qed.

(** The stage of a state with a key selected, read off its fields. *)
Lemma stageOf_selected (s : State) :
  apiKeySelected s = Some true ->
  stageOf s
  = if truthy (generatedVideoUrl s) then VideoReady
    else if truthy (generatedImage s)
         then (if isGeneratingVideo s then GeneratingVideo else ImageReady)
         else (if isGeneratingImage s then GeneratingImage else Idle).
Proof.
  intros Hkey. unfold stageOf, renderContent. rewrite Hkey.
  destruct (generatedVideoUrl s) as [[|c url]|];
    destruct (generatedImage s) as [[|d image]|]; reflexivity.
Qed.

End PageFacts.

(** ** What a click does *)
Module PageProps.
Import GeminiService ServiceFacts App AppFacts LoopFacts PageFacts.

(** The generate handler on a prompt that is not blank.  It always settles,
    with the busy flag lowered.  Either the image became a PNG data URI and
    no error is shown, or the image is the one held before and the error is
    the fixed generation-failure message.  The video reference, the prompt,
    the ratio, the credential state and the animation fields are untouched.
    At most one remote call is made, the image request built from the prompt
    as typed (not trimmed). *)
Theorem handleGenerateLogo_settles (host : Host) (w : World State) :
  forallb isWhiteSpace (prompt (view w)) = false ->
  let run := handleGenerateLogo host w in
  let s := view w in
  let s' := view (snd run) in
  fst run = Returned tt
  /\ isGeneratingImage s' = false
  /\ ((exists bytes,
         generatedImage s' = Some (lit "data:image/png;base64," ++ bytes)
         /\ error s' = None)
      \/ (generatedImage s' = generatedImage s
          /\ error s' = Some generateFailure))
  /\ generatedVideoUrl s' = generatedVideoUrl s
  /\ prompt s' = prompt s
  /\ aspectRatio s' = aspectRatio s
  /\ apiKeySelected s' = apiKeySelected s
  /\ isGeneratingVideo s' = isGeneratingVideo s
  /\ videoLoadingMessage s' = videoLoadingMessage s
  /\ exists evs,
       log (snd run) = log w ++ evs
       /\ (filter isRemoteCall evs = []
           \/ filter isRemoteCall evs
              = [EvGenerateImages (imageRequest (prompt s))]).
Proof.
  intros Hprompt. cbv zeta.
  assert (Htrim : trim (prompt (view w)) <> []).
  { intros H. apply JsFacts.trim_nil_iff in H. congruence. }
  destruct (generateLogoImage_cases host (prompt (view w)))
    as (outcome & evs & Hrun & Hcases).
  rewrite (@handleGenerateLogo_run host w outcome evs Htrim Hrun).
  destruct Hcases as [(e & -> & Hevs)
                     |(resp & first & rest & img & _ & _ & _ & -> & ->)];
    cbn [fst snd view log].
  - repeat match goal with |- _ /\ _ => split end; try reflexivity.
    + right. split; reflexivity.
    + exists evs. destruct Hevs as [-> | ->]; (split; [reflexivity|]);
        [left | right]; reflexivity.
  - repeat match goal with |- _ /\ _ => split end; try reflexivity.
    + left. eexists. split; reflexivity.
    + eexists. split; [reflexivity|]. right. reflexivity.
Qed.

Lemma handleGenerateLogo_settles_witness :
  let run := handleGenerateLogo (imageHost (Some (lit "iVBOR"))) (start idle) in
  let s' := view (snd run) in
  fst run = Returned tt
  /\ isGeneratingImage s' = false
  /\ ((exists bytes,
         generatedImage s' = Some (lit "data:image/png;base64," ++ bytes)
         /\ error s' = None)
      \/ (generatedImage s' = generatedImage idle
          /\ error s' = Some generateFailure))
  /\ generatedVideoUrl s' = generatedVideoUrl idle
  /\ prompt s' = prompt idle
  /\ aspectRatio s' = aspectRatio idle
  /\ apiKeySelected s' = apiKeySelected idle
  /\ isGeneratingVideo s' = isGeneratingVideo idle
  /\ videoLoadingMessage s' = videoLoadingMessage idle
  /\ exists evs,
       log (snd run) = [] ++ evs
       /\ (filter isRemoteCall evs = []
           \/ filter isRemoteCall evs
              = [EvGenerateImages (imageRequest (prompt idle))]).
Proof.
  apply (handleGenerateLogo_settles (imageHost (Some (lit "iVBOR")))
           (start idle)).
  reflexivity.
Defined.



Lemma stageOf_setVideoLoadingMessage message (s : State) :
  stageOf (setVideoLoadingMessage message s) = stageOf s.
Proof.
  unfold stageOf, renderContent. cbn.
  destruct (apiKeySelected s) as [[|]|]; try reflexivity.
  destruct (generatedVideoUrl s) as [[|c url]|];
    destruct (generatedImage s) as [[|d image]|]; reflexivity.
Qed.

(** What a call of [animateLogo] from the handler leaves of the view. *)
Lemma animateLogo_view (host : Host) fuel image ratio (w : World State) :
  let w' := snd (animateLogo host fuel image ratio setVideoLoadingMessage w) in
  view w' = setVideoLoadingMessage (videoLoadingMessage (view w')) (view w).
Proof.
  cbv zeta. pose proof (animateLogo_keeps_fields host fuel image ratio w) as Hk.
  cbv zeta in Hk.
  destruct (view (snd (animateLogo host fuel image ratio
                         setVideoLoadingMessage w))) eqn:E1.
  destruct (view w) eqn:E2. cbn in Hk. injection Hk as -> -> -> -> -> -> -> ->.
  reflexivity.
Qed.

(** A result of [animateLogo] is an object URL made by the host. *)
Lemma animateLogo_returns S (host : Host)
  (updateLoadingMessage : jsstring -> S -> S) fuel imageBase64 aspectRatio
  (w : World S) result :
  fst (animateLogo host fuel imageBase64 aspectRatio updateLoadingMessage w)
    = Returned result ->
  exists data, result = createObjectURL host data.
Proof.
  unfold animateLogo, tryCatch, animateLogo_try, getGeminiClient.
  destruct (truthy (API_KEY host));
    [|cbv beta iota delta [bind throw]; rewrite animateLogo_catch_run;
      discriminate].
  cbv beta iota delta
    [bind ret progress emit setView callGenerateVideos view log].
  destruct (generateVideos host _) as [first|e];
    cbv beta iota delta [await ret throw];
    [|rewrite animateLogo_catch_run; discriminate].
  destruct (pollLoop host fuel updateLoadingMessage 0 first _)
    as [[final|e|] w2];
    [| rewrite animateLogo_catch_run; discriminate | discriminate].
  unfold fetchVideo.
  cbv beta iota delta [bind progress emit setView view log].
  destruct (truthy (downloadLink final));
    cbv beta iota delta [negb callFetch bind emit throw view log];
    [|rewrite animateLogo_catch_run; discriminate].
  destruct (fetch host _) as [resp|e]; cbv beta iota delta [await ret throw];
    [|rewrite animateLogo_catch_run; discriminate].
  destruct (ok resp); cbv beta iota delta [negb bind throw];
    [|rewrite animateLogo_catch_run; discriminate].
  destruct (blob resp) as [data|e]; cbv beta iota delta [await ret throw];
    [|rewrite animateLogo_catch_run; discriminate].
  intros [= <-]. now exists data.
Qed.

(** The two steps of the workflow that call the service, stage by stage, on a
    host whose object URLs are never empty.  From Idle, with the animation
    busy flag down and a prompt that is not blank, generating ends in
    ImageReady with no error, or back in Idle with the generation-failure
    message.  From ImageReady, animating ends in VideoReady with no error, or
    back in ImageReady with one of the two animation messages, or, when the
    service logged a value [String] could not convert, with the error read
    off what the conversion raised: in NoCredential if that is an [Error]
    whose message contains "API key is invalid", in ImageReady otherwise.
    While the service is still polling the stage is GeneratingVideo. *)
Theorem workflow_steps (host : Host) (fuel : nat) (w1 w2 : World State) :
  (forall data, truthy (Some (createObjectURL host data)) = true) ->
  stageOf (view w1) = Idle ->
  isGeneratingVideo (view w1) = false ->
  forallb isWhiteSpace (prompt (view w1)) = false ->
  stageOf (view w2) = ImageReady ->
  (let s' := view (snd (handleGenerateLogo host w1)) in
   (stageOf s' = ImageReady /\ error s' = None)
   \/ (stageOf s' = Idle /\ error s' = Some generateFailure))
  /\ (let run := handleAnimateLogo host fuel w2 in
      let s' := view (snd run) in
      match fst run with
      | Returned _ =>
          (stageOf s' = VideoReady /\ error s' = None)
          \/ (stageOf s' = ImageReady
              /\ (error s' = Some notFoundMessage
                  \/ error s' = Some animateFailure))
          \/ (exists raised before,
                log (snd run)
                = before ++ [EvConsoleError animateLabel (Unconvertible raised)]
                /\ error s' = Some (shownMessage raised)
                /\ stageOf s' = if saysKeyInvalid raised then NoCredential
                                else ImageReady)
      | Unsettled => stageOf s' = GeneratingVideo
      | Threw _ => False
      end).
Proof.
  intros Hurl Hidle Hquiet Hprompt Hready. split; cbv zeta.
  - apply stageOf_Idle_inv in Hidle as (Hkey & Hvideo & Himage & Hbusy).
    assert (Htrim : trim (prompt (view w1)) <> []).
    { intros H. apply JsFacts.trim_nil_iff in H. congruence. }
    destruct (generateLogoImage_cases host (prompt (view w1)))
      as (outcome & evs & Hrun & Hcases).
    rewrite (@handleGenerateLogo_run host w1 outcome evs Htrim Hrun).
    destruct Hcases as [(e & -> & _)
                       |(resp & first & rest & img & _ & _ & _ & -> & _)];
      cbn [snd view]; [right | left]; (split; [|reflexivity]);
      rewrite stageOf_selected by exact Hkey; cbn;
      rewrite ?Hvideo, ?Himage, ?Hquiet, ?Hbusy; reflexivity.
  - apply stageOf_ImageReady_inv in Hready as (Hkey & Hvideo & Himage & Hbusy).
    destruct (generatedImage (view w2)) as [[|c image]|] eqn:Hheld;
      try discriminate.
    rewrite (@handleAnimateLogo_run host fuel w2 c image Hheld).
    match goal with |- context [animateLogo host fuel ?i ?r ?cb ?w1] =>
      pose proof (animateLogo_view host fuel i r w1) as Hview;
      pose proof (@animateLogo_throws State host cb fuel i r w1) as Hthrows;
      pose proof (@animateLogo_returns State host cb fuel i r w1) as Hreturns;
      destruct (animateLogo host fuel i r cb w1) as [[url|e|] w3] end;
      cbv zeta in Hview; cbn [fst snd view log] in *; rewrite Hview.
    + left. destruct (Hreturns url eq_refl) as [data ->].
      split; [|reflexivity].
      rewrite stageOf_selected by exact Hkey. cbn [generatedVideoUrl
        setIsGeneratingVideo setGeneratedVideoUrl setVideoLoadingMessage].
      now rewrite Hurl.
    + destruct (Hthrows e eq_refl) as (e0 & before & Hlog & ->).
      assert (Hback : forall message,
                 stageOf
                   (setIsGeneratingVideo false
                      (setError (Some message)
                         (setVideoLoadingMessage (videoLoadingMessage (view w3))
                            (setVideoLoadingMessage
                               (lit "Starting animation process...")
                               (setIsGeneratingVideo true
                                  (setError None (view w2)))))))
                 = ImageReady).
      { intros message. rewrite stageOf_selected by exact Hkey. cbn.
        now rewrite Hvideo, Hheld. }
      destruct e0 as [text|text|raised].
      * rewrite (@saysKeyInvalid_replaced (ErrorObj text) text eq_refl).
        right. left. split; [apply Hback|].
        cbn [surfaced]. destruct (includes text notFoundPhrase);
          [left | right]; reflexivity.
      * rewrite (@saysKeyInvalid_replaced (NonError text) text eq_refl).
        right. left. split; [apply Hback|].
        cbn [surfaced]. destruct (includes text notFoundPhrase);
          [left | right]; reflexivity.
      * cbn [surfaced]. right. right. exists raised, before.
        split; [exact Hlog|].
        destruct (saysKeyInvalid raised);
          (split; [reflexivity|]); [reflexivity | apply Hback].
    + rewrite stageOf_selected by exact Hkey. cbn.
      now rewrite Hvideo, Hheld.
Qed.

Lemma workflow_steps_witness :
  (let s' :=
     view (snd (handleGenerateLogo (imageHost (Some (lit "iVBOR")))
                  (start idle))) in
   (stageOf s' = ImageReady /\ error s' = None)
   \/ (stageOf s' = Idle /\ error s' = Some generateFailure))
  /\ (let run :=
        handleAnimateLogo (imageHost (Some (lit "iVBOR"))) 2
          (start imageReady) in
      let s' := view (snd run) in
      match fst run with
      | Returned _ =>
          (stageOf s' = VideoReady /\ error s' = None)
          \/ (stageOf s' = ImageReady
              /\ (error s' = Some notFoundMessage
                  \/ error s' = Some animateFailure))
          \/ (exists raised before,
                log (snd run)
                = before ++ [EvConsoleError animateLabel (Unconvertible raised)]
                /\ error s' = Some (shownMessage raised)
                /\ stageOf s' = if saysKeyInvalid raised then NoCredential
                                else ImageReady)
      | Unsettled => stageOf s' = GeneratingVideo
      | Threw _ => False
      end).
Proof.
  apply (workflow_steps (imageHost (Some (lit "iVBOR"))) 2 (start idle)
           (start imageReady)).
  - intros data. reflexivity.
  - reflexivity.
  - reflexivity.
  - reflexivity.
  - reflexivity.
Defined.

(** From the picture to the animation request.  When the image service
    answers with a first picture whose bytes hold no comma (as base64 never
    does), the generate handler stores them behind the data-URI prefix, and an
    animate click after it submits exactly those bytes, as "image/png", under
    the ratio selected on the page. *)
Theorem generated_bytes_reach_animation (host : Host) (fuel : nat)
  (w : World State) resp first rest img bytes :
  truthy (API_KEY host) = true ->
  forallb isWhiteSpace (prompt (view w)) = false ->
  generateImages host (imageRequest (prompt (view w))) = Resolved resp ->
  Images.generatedImages resp = Some (first :: rest) ->
  Images.image first = Some img ->
  Images.imageBytes img = Some bytes ->
  forallb (fun c => negb (N.eqb c 44)) bytes = true ->
  let w1 := snd (handleGenerateLogo host w) in
  let w2 := snd (handleAnimateLogo host fuel w1) in
  generatedImage (view w1) = Some (lit "data:image/png;base64," ++ bytes)
  /\ exists req later,
       log w2
       = log w
         ++ EvGenerateImages (imageRequest (prompt (view w)))
            :: EvProgress (lit "Initiating animation sequence...")
            :: EvGenerateVideos req :: later
       /\ Videos.imageBytes (Videos.image req) = Some bytes
       /\ Videos.mimeType (Videos.image req) = lit "image/png"
       /\ Videos.aspectRatio (Videos.config req) = aspectRatio (view w).
Proof.
  intros Hkey Hprompt Hanswer Hlist Hfirst Hbytes Hplain. cbv zeta.
  assert (Htrim : trim (prompt (view w)) <> []).
  { intros H. apply JsFacts.trim_nil_iff in H. congruence. }
  assert (Hrun : forall S (w0 : World S),
             generateLogoImage host (prompt (view w)) w0
             = (Returned (lit "data:image/png;base64," ++ bytes),
                {| view := view w0;
                   log := log w0
                          ++ [EvGenerateImages
                                (imageRequest (prompt (view w)))] |})).
  { intros S w0.
    unfold generateLogoImage, generateLogoImage_try, getGeminiClient,
      callGenerateImages.
    rewrite Hkey.
    cbv beta iota delta [tryCatch bind emit await ret throw].
    rewrite Hanswer. cbv beta iota. rewrite Hlist. cbv beta iota.
    rewrite Hfirst. cbv beta iota. now rewrite Hbytes. }
  rewrite (@handleGenerateLogo_run host w _ _ Htrim Hrun).
  cbn [snd view log]. split; [reflexivity|].
  assert (Hdata : exists c image,
             lit "data:image/png;base64," ++ bytes = c :: image)
    by (do 2 eexists; reflexivity).
  destruct Hdata as (c & image & Hdata).
  match goal with |- context [handleAnimateLogo host fuel ?w1] =>
    rewrite (@handleAnimateLogo_run host fuel w1 c image)
      by (cbn [generatedImage setIsGeneratingImage setGeneratedImage
                 setError view]; now rewrite Hdata) end.
  cbn [view log aspectRatio setIsGeneratingImage setGeneratedImage setError
         setVideoLoadingMessage setIsGeneratingVideo].
  match goal with |- context [animateLogo host fuel ?i ?r ?cb ?w1] =>
    destruct (animateLogo_cases host cb fuel i r w1)
      as (evs & Hlog & [(Hno & _)|(_ & ops & tail & -> & _)]);
      [congruence|];
    destruct (animateLogo host fuel i r cb w1) as [[url|e|] w3] end;
    cbn [fst snd view log] in *; rewrite Hlog;
    (do 2 eexists; split;
     [unfold animateTrace; rewrite <- !app_assoc; cbn [app]; reflexivity|]);
    (split; [|split; reflexivity]);
    rewrite <- Hdata; cbn [videoRequest Videos.image Videos.imageBytes];
    change (lit "data:image/png;base64," ++ bytes)
      with (lit "data:image/png;base64" ++ 44%N :: bytes);
    rewrite split_once by (reflexivity || exact Hplain); reflexivity.
Qed.

Lemma generated_bytes_reach_animation_witness :
  let host := imageHost (Some (lit "iVBOR")) in
  let w1 := snd (handleGenerateLogo host (start idle)) in
  let w2 := snd (handleAnimateLogo host 2 w1) in
  generatedImage (view w1) = Some (lit "data:image/png;base64," ++ lit "iVBOR")
  /\ exists req later,
       log w2
       = [] ++ EvGenerateImages (imageRequest (prompt idle))
            :: EvProgress (lit "Initiating animation sequence...")
            :: EvGenerateVideos req :: later
       /\ Videos.imageBytes (Videos.image req) = Some (lit "iVBOR")
       /\ Videos.mimeType (Videos.image req) = lit "image/png"
       /\ Videos.aspectRatio (Videos.config req) = aspectRatio idle.
Proof.
  apply (@generated_bytes_reach_animation (imageHost (Some (lit "iVBOR"))) 2
           (start idle)
           {| Images.generatedImages :=
                Some [ {| Images.image :=
                            Some {| Images.imageBytes := Some (lit "iVBOR") |} |} ] |}
           {| Images.image :=
                Some {| Images.imageBytes := Some (lit "iVBOR") |} |}
           [] {| Images.imageBytes := Some (lit "iVBOR") |} (lit "iVBOR"));
    reflexivity.
Defined.

(** The start-up check.  With a host page that offers [hasSelectedApiKey],
    the credential state becomes its answer; without one (or when it is not a
    function) it becomes whether the environment holds a key.  Nothing else
    of the view changes and no remote call is made.  If the host's answer is
    a rejection, nothing changes at all: the credential state stays what it
    was. *)
Theorem checkApiKey_outcomes (host : Host) (w : World State) :
  let run := checkApiKey host w in
  count isRemoteCall (log (snd run)) = count isRemoteCall (log w)
  /\ match fst run with
     | Returned _ =>
         exists hasKey,
           view (snd run) = setApiKeySelected (Some hasKey) (view w)
           /\ ((exists studio,
                  aistudio host = Some studio
                  /\ hasSelectedApiKey studio = Some (Resolved hasKey))
               \/ (hasKey = truthy (API_KEY host)
                   /\ forall studio,
                        aistudio host = Some studio ->
                        hasSelectedApiKey studio = None))
     | Threw e =>
         view (snd run) = view w
         /\ exists studio,
              aistudio host = Some studio
              /\ hasSelectedApiKey studio = Some (Rejected e)
     | Unsettled => False
     end.
Proof.
  cbv zeta. unfold checkApiKey.
  destruct (aistudio host) as [studio|] eqn:Hstudio.
  - destruct (hasSelectedApiKey studio) as [[hasKey|e]|] eqn:Hanswer;
      cbv beta iota delta [bind emit await ret throw setView view log fst snd].
    + split; [rewrite count_app, count_single; cbn; lia|].
      exists hasKey. split; [reflexivity|]. left. now exists studio.
    + split; [rewrite count_app, count_single; cbn; lia|].
      split; [reflexivity|]. now exists studio.
    + split; [reflexivity|]. eexists. split; [reflexivity|]. right.
      split; [reflexivity|]. now intros studio' [= <-].
  - cbv beta iota delta [setView view log fst snd].
    split; [reflexivity|]. eexists. split; [reflexivity|]. right.
    split; [reflexivity|]. discriminate.
Qed.

(** A click on "Select API Key".  The handler never throws.  If the host's
    chooser opened, the key is marked as selected (whatever the user did in
    the chooser) and nothing else changes; if it could not be opened (there
    is no [window.aistudio], or opening was rejected), the credential state
    stays what it was and the error becomes the fixed message.  No remote
    call is made either way. *)
Theorem handleSelectKey_outcomes (host : Host) (w : World State) :
  let run := handleSelectKey host w in
  fst run = Returned tt
  /\ count isRemoteCall (log (snd run)) = count isRemoteCall (log w)
  /\ ((view (snd run) = setApiKeySelected (Some true) (view w)
       /\ exists studio,
            aistudio host = Some studio /\ openSelectKey studio = Resolved tt)
      \/ (view (snd run) = setError (Some selectKeyFailure) (view w)
          /\ (aistudio host = None
              \/ exists studio e,
                   aistudio host = Some studio
                   /\ openSelectKey studio = Rejected e))).
Proof.
  cbv zeta. unfold handleSelectKey, tryCatch, consoleError.
  destruct (aistudio host) as [studio|].
  - cbv beta iota delta [bind emit setView view log].
    destruct (openSelectKey studio) as [[]|e] eqn:Hopen;
      cbv beta iota delta [await ret throw bind emit setView view log fst snd];
      (split; [reflexivity|]);
      (split; [rewrite ?count_app, ?count_single; cbn; lia|]).
    + left. split; [reflexivity|]. now exists studio.
    + right. split; [reflexivity|]. right. now exists studio, e.
  - cbv beta iota delta [throw bind emit setView view log fst snd].
    split; [reflexivity|].
    split; [rewrite ?count_app, ?count_single; cbn; lia|].
    right. split; [reflexivity|]. now left.
Qed.

(** Each control is on offer in exactly one stage: the key button in
    NoCredential, the prompt box and the generate button in Idle, the ratio
    and animate buttons in ImageReady, the reset button in VideoReady.  So
    nothing can be clicked while the start-up check or a generation is under
    way, and a step cannot be started twice. *)
Theorem controls_follow_stage (s : State) (a : Action) :
  available s a = true
  <-> stageOf s = match a with
                  | ClickSelectKey => NoCredential
                  | TypePrompt _ | ClickGenerate => Idle
                  | ClickRatio _ | ClickAnimate => ImageReady
                  | ClickReset => VideoReady
                  end.
Proof.
  unfold available, stageOf.
  destruct (renderContent s) as [| |url|image [|] message ratio|text [|]];
    destruct a; simpl; split; congruence.
Qed.

(** Reset where the page offers it.  In either revision the reset button is
    only rendered next to a finished video, and clicking it there brings back
    the first step: the prompt box with the default text, enabled, and the
    generate button. *)
Theorem reset_where_offered (s : App.State) (s0 : AppHelp.State) :
  available s ClickReset = true ->
  offers (AppHelp.renderContent s0) ClickReset = true ->
  (truthy (generatedVideoUrl s) = true
   /\ renderContent (handleReset s) = LogoGenerator defaultPrompt false
   /\ stageOf (handleReset s) = Idle
   /\ available (handleReset s) ClickGenerate = true)
  /\ (truthy (AppHelp.generatedVideoUrl s0) = true
      /\ AppHelp.renderContent (AppHelp.handleReset s0)
         = LogoGenerator defaultPrompt false).
Proof.
  unfold available, stageOf, renderContent, AppHelp.renderContent.
  intros H H0. split.
  - destruct (apiKeySelected s) as [[|]|] eqn:Hkey; try discriminate.
    cbn. rewrite Hkey.
    destruct (generatedVideoUrl s) as [[|c url]|].
    + destruct (generatedImage s) as [[|d image]|]; discriminate.
    + repeat split.
    + destruct (generatedImage s) as [[|d image]|]; discriminate.
  - cbn. destruct (AppHelp.generatedVideoUrl s0) as [[|c url]|].
    + destruct (AppHelp.generatedImage s0) as [[|d image]|]; discriminate.
    + repeat split.
    + destruct (AppHelp.generatedImage s0) as [[|d image]|]; discriminate.
Qed.

Lemma reset_where_offered_witness :
  (truthy (generatedVideoUrl
             (setGeneratedVideoUrl (Some (lit "blob:video")) imageReady))
   = true
   /\ renderContent
        (handleReset (setGeneratedVideoUrl (Some (lit "blob:video")) imageReady))
      = LogoGenerator defaultPrompt false
   /\ stageOf
        (handleReset (setGeneratedVideoUrl (Some (lit "blob:video")) imageReady))
      = Idle
   /\ available
        (handleReset (setGeneratedVideoUrl (Some (lit "blob:video")) imageReady))
        ClickGenerate = true)
  /\ (truthy (AppHelp.generatedVideoUrl
                (AppHelp.setGeneratedVideoUrl (Some (lit "blob:video")) helpIdle))
      = true
      /\ AppHelp.renderContent
           (AppHelp.handleReset
              (AppHelp.setGeneratedVideoUrl (Some (lit "blob:video")) helpIdle))
         = LogoGenerator defaultPrompt false).
Proof.
  apply (reset_where_offered
           (setGeneratedVideoUrl (Some (lit "blob:video")) imageReady)
           (AppHelp.setGeneratedVideoUrl (Some (lit "blob:video")) helpIdle));
    reflexivity.
Defined.

(** The handler of the help-dialog revision, on a state that holds an
    image. *)
Lemma help_handleAnimateLogo_run (host : Host) fuel
  (w : World AppHelp.State) c image :
  AppHelp.generatedImage (view w) = Some (c :: image) ->
  AppHelp.handleAnimateLogo host fuel w =
  match animateLogo host fuel (c :: image) (AppHelp.aspectRatio (view w))
          AppHelp.setVideoLoadingMessage
          {| view := AppHelp.setVideoLoadingMessage
                       (lit "Starting animation process...")
                       (AppHelp.setIsGeneratingVideo true
                          (AppHelp.setError None (view w)));
             log := log w |}
  with
  | (Returned videoUrl, w') =>
      (Returned tt,
       {| view := AppHelp.setIsGeneratingVideo false
                    (AppHelp.setGeneratedVideoUrl (Some videoUrl) (view w'));
          log := log w' |})
  | (Threw e, w') =>
      (Returned tt,
       {| view := AppHelp.setIsGeneratingVideo false
                    (AppHelp.setError (Some (shownMessage e)) (view w'));
          log := log w' |})
  | (Unsettled, w') => (Unsettled, w')
  end.
Proof.
  intros Himage. unfold AppHelp.handleAnimateLogo.
  cbv beta iota delta [bind getView]. rewrite Himage.
  cbv beta iota delta [bind setView tryFinally tryCatch view log].
  destruct w as [s l]. simpl.
  destruct (animateLogo host fuel (c :: image) (AppHelp.aspectRatio s)
              AppHelp.setVideoLoadingMessage _) as [[url|e|] w'];
    reflexivity.
Qed.

(** The two revisions of the page agree.  On states that hold the same
    prompt, ratio, image, video, flags, message and error, the generate,
    animate and reset handlers of the revision without the credential gate do
    what those of the gated revision do: they end alike, log the same events
    and leave states that again hold the same; and the gated revision, once a
    key is selected, renders what the other one renders. *)
Theorem revisions_agree (host : Host) (fuel : nat) (helpOpen : bool)
  (w : World App.State) :
  let same := mapWorld (AppHelp.ofGated helpOpen) in
  AppHelp.handleGenerateLogo host (same w)
    = (fst (App.handleGenerateLogo host w),
       same (snd (App.handleGenerateLogo host w)))
  /\ AppHelp.handleAnimateLogo host fuel (same w)
     = (fst (App.handleAnimateLogo host fuel w),
        same (snd (App.handleAnimateLogo host fuel w)))
  /\ AppHelp.handleReset (AppHelp.ofGated helpOpen (view w))
     = AppHelp.ofGated helpOpen (App.handleReset (view w))
  /\ AppHelp.renderContent (AppHelp.ofGated helpOpen (view w))
     = App.renderContent (setApiKeySelected (Some true) (view w)).
Proof.
  cbv zeta. split; [|split; [|split; reflexivity]].
  - destruct w as [s l].
    unfold AppHelp.handleGenerateLogo, App.handleGenerateLogo.
    cbv beta iota delta [bind getView mapWorld view log].
    change (AppHelp.prompt (AppHelp.ofGated helpOpen s)) with (prompt s).
    destruct (trim (prompt s)) as [|c rest]; [reflexivity|].
    destruct (generateLogoImage_run host (prompt s))
      as (outcome & evs & _ & Hrun).
    cbv beta iota delta [bind setView tryFinally tryCatch view log].
    rewrite !Hrun. destruct outcome; reflexivity.
  - destruct (generatedImage (view w)) as [[|c image]|] eqn:Hheld.
    + destruct w as [s l]. simpl in Hheld.
      unfold AppHelp.handleAnimateLogo, App.handleAnimateLogo.
      cbv beta iota delta [bind getView mapWorld view log].
      change (AppHelp.generatedImage (AppHelp.ofGated helpOpen s))
        with (generatedImage s).
      now rewrite Hheld.
    + rewrite (@handleAnimateLogo_run host fuel w c image Hheld).
      rewrite (@help_handleAnimateLogo_run host fuel
                 (mapWorld (AppHelp.ofGated helpOpen) w) c image)
        by exact Hheld.
      pose proof (@Naturality.natural_animateLogo App.State AppHelp.State
                    (AppHelp.ofGated helpOpen) host
                    App.setVideoLoadingMessage AppHelp.setVideoLoadingMessage
                    (fun _ _ => eq_refl) fuel (c :: image)
                    (aspectRatio (view w))) as Hnat.
      change (AppHelp.aspectRatio
                (view (mapWorld (AppHelp.ofGated helpOpen) w)))
        with (aspectRatio (view w)).
      match goal with |- context [animateLogo host fuel _ _
                                   App.setVideoLoadingMessage ?w1] =>
        specialize (Hnat w1);
        match goal with |- context [animateLogo host fuel _ _
                                     AppHelp.setVideoLoadingMessage ?w1'] =>
          change w1' with (mapWorld (AppHelp.ofGated helpOpen) w1)
        end;
        rewrite Hnat;
        destruct (animateLogo host fuel (c :: image) (aspectRatio (view w))
                    App.setVideoLoadingMessage w1) as [[url|e|] w2] end;
        try destruct (saysKeyInvalid e); reflexivity.
    + destruct w as [s l]. simpl in Hheld.
      unfold AppHelp.handleAnimateLogo, App.handleAnimateLogo.
      cbv beta iota delta [bind getView mapWorld view log].
      change (AppHelp.generatedImage (AppHelp.ofGated helpOpen s))
        with (generatedImage s).
      now rewrite Hheld.
Qed.

Lemma split_plain (sep : N) (text : jsstring) :
  forallb (fun c => negb (N.eqb c sep)) text = true ->
  split sep text = [text].
Proof.
  induction text as [|c rest IH]; intros Hplain; [reflexivity|].
  simpl in Hplain. apply andb_true_iff in Hplain as [Hc Hrest].
  simpl. destruct (N.eqb c sep); [discriminate|].
  now rewrite (IH Hrest).
Qed.

(** The image string is not checked.  Given a string without a comma (so not
    a data URI), [animateLogo] still sends its first progress message and
    submits the job, with no image bytes in the request. *)
Theorem animateLogo_submits_without_bytes S (host : Host)
  (updateLoadingMessage : jsstring -> S -> S) fuel imageBase64 aspectRatio
  (w : World S) :
  truthy (API_KEY host) = true ->
  forallb (fun c => negb (N.eqb c 44)) imageBase64 = true ->
  exists req later,
    log (snd (animateLogo host fuel imageBase64 aspectRatio
                updateLoadingMessage w))
    = log w
      ++ EvProgress (lit "Initiating animation sequence...")
         :: EvGenerateVideos req :: later
    /\ Videos.imageBytes (Videos.image req) = None
    /\ Videos.aspectRatio (Videos.config req) = aspectRatio.
Proof.
  intros Hkey Hplain.
  destruct (animateLogo_cases host updateLoadingMessage fuel imageBase64
              aspectRatio w)
    as (evs & Hlog & [(Hno & _)|(_ & ops & tail & -> & _)]); [congruence|].
  rewrite Hlog. do 2 eexists. split.
  - unfold animateTrace. cbn [app]. reflexivity.
  - split; [|reflexivity].
    cbn [videoRequest Videos.image Videos.imageBytes].
    now rewrite (split_plain _ _ Hplain).
Qed.

Lemma animateLogo_submits_without_bytes_witness :
  exists req later,
    log (snd (animateLogo hostTwoPending 2 (lit "iVBOR") AR_9_16 ignore bare))
    = [] ++ EvProgress (lit "Initiating animation sequence...")
         :: EvGenerateVideos req :: later
    /\ Videos.imageBytes (Videos.image req) = None
    /\ Videos.aspectRatio (Videos.config req) = AR_9_16.
Proof.
  apply (@animateLogo_submits_without_bytes unit hostTwoPending ignore 2
           (lit "iVBOR") AR_9_16 bare); reflexivity.
Defined.

(** A thrown value that [String] cannot convert is not replaced.  When the
    [try] block of [animateLogo] throws such a value, the [catch] block logs
    it and is then left by what the conversion raised: that, and neither of
    the two fixed messages, is what the caller gets. *)
Theorem animateLogo_conversion_escapes S (host : Host)
  (updateLoadingMessage : jsstring -> S -> S) fuel imageBase64 aspectRatio
  (w w1 : World S) (raised : Thrown) :
  animateLogo_try host fuel imageBase64 aspectRatio updateLoadingMessage w
    = (Threw (Unconvertible raised), w1) ->
  animateLogo host fuel imageBase64 aspectRatio updateLoadingMessage w
  = (Threw raised,
     {| view := view w1;
        log := log w1 ++ [EvConsoleError animateLabel (Unconvertible raised)] |}).
Proof.
  intros Hrun. unfold animateLogo, tryCatch. rewrite Hrun.
  unfold animateLogo_catch, consoleError, errorMessageOf.
  reflexivity.
Qed.

Lemma animateLogo_conversion_escapes_witness :
  animateLogo hostUnconvertible 3 sampleImage AR_16_9 ignore bare
  = (Threw (ErrorObj (lit "API key is invalid")),
     {| view := tt;
        log := [EvProgress (lit "Initiating animation sequence...");
                EvGenerateVideos (videoRequest sampleImage AR_16_9)]
               ++ [EvConsoleError animateLabel
                     (Unconvertible (ErrorObj (lit "API key is invalid")))] |}).
Proof.
  apply (@animateLogo_conversion_escapes unit hostUnconvertible ignore 3
           sampleImage AR_16_9 bare
           {| view := tt;
              log := [EvProgress (lit "Initiating animation sequence...");
                      EvGenerateVideos (videoRequest sampleImage AR_16_9)] |}
           (ErrorObj (lit "API key is invalid"))).
  reflexivity.
Defined.



End PageProps.
